(** * galene disk writer: a shallow embedding of [diskwriter/diskwriter.go]

    The recorder of the galene SFU writes the RTP streams of a group to
    WebM files.  This development embeds the three objects of
    [diskwriter.go] ([Client], [diskConn], [diskTrack]) as functions over an
    explicit world state and proves the properties the specification states
    about them.

    Conventions.
    - Go's [uint32] and [uint64] values are integers of [Z] with the
      wrap-around written out ([wrap32]); bytes are [Byte.byte].
    - A Go function that mutates its receiver takes the object and returns
      the new one; [error] results are [option error] ([None] is [nil]).
    - [diskConn] objects are shared by pointer between the client's map and
      the upstream that delivers packets, so they live in a heap
      ([gmap nat diskConn]) and are named by their address.
    - Calls that leave the program (the file system, the clock, the WebM
      muxer, the sample builder, the group's notification channel) are
      either fields of the world or operations of the class [Lib]; every
      such call that has an effect is recorded in the world's [trace]. *)

From Stdlib Require Import ZArith String Ascii List Bool Lia.
From Stdlib.Strings Require Import Byte.
From stdpp Require Import base option list gmap strings.

Local Open Scope Z_scope.

(** ** Machine integers and bytes *)

Definition wrap32 (z : Z) : Z := z mod 2 ^ 32.

Definition byteZ (b : byte) : Z := Z.of_N (Byte.to_N b).

(** ** Values exchanged with the other packages *)

(** [webrtc.RTPCodecCapability], as far as the writer reads it. *)
Record Codec := {
  MimeType : string;
  ClockRate : Z;  (* uint32 *)
  Channels : Z    (* uint16 *)
}.

(** [conn.UpTrack]: a remote track.  The writer calls [Codec()], [AddLocal]
    and [DelLocal] on it. *)
Record UpTrack := {
  track_key : nat;
  track_Codec : Codec
}.

(** [conn.Up]: a remote connection; [up_key] is the identity of the object,
    [up_Id] what [Id()] returns. *)
Record Up := {
  up_key : nat;
  up_Id : string
}.

(** [*group.Group]: compared by pointer in [PushConn], asked for its
    [Name()]. *)
Record Group := {
  group_key : nat;
  group_Name : string
}.

(** [media.Sample] as [PopWithTimestamp] returns it: the payload and the
    32-bit RTP timestamp. *)
Record Sample := {
  Data : list byte;
  PacketTimestamp : Z  (* uint32 *)
}.

(** The depacketizer handed to [samplebuilder.New]. *)
Inductive Depacketizer := OpusPacket | VP8Packet.

(** [webm.TrackEntry], the fields [initWriter] fills in. *)
Record TrackEntry := {
  Name : string;
  TrackNumber : Z;
  CodecID : string;
  TrackType : Z;
  Audio : option (Z * Z);  (* SamplingFrequency, Channels *)
  Video : option (Z * Z)   (* PixelWidth, PixelHeight *)
}.

(** ** Errors *)

(** The errors of [diskwriter.go] by the place that creates them, and the
    errors that come from outside ([os], [webm], [conn]) by their text. *)
Inductive error :=
  | ErrClientClosed       (* PushConn *)
  | ErrCouldntCreate      (* openDiskFile *)
  | ErrMultipleVideo      (* newDiskConn *)
  | ErrUnknownTrackType   (* diskConn.initWriter *)
  | ErrUnexpectedWriters  (* diskConn.initWriter *)
  | ErrKeyframeNeeded     (* conn.ErrKeyframeNeeded *)
  | ErrExist (path : string)  (* os: the file exists; os.IsExist holds *)
  | ErrExternal (msg : string).

Definition error_Error (e : error) : string :=
  match e with
  | ErrClientClosed => "disk client is closed"
  | ErrCouldntCreate => "couldn't create file"
  | ErrMultipleVideo => "multiple video tracks not supported"
  | ErrUnknownTrackType => "unknown track type"
  | ErrUnexpectedWriters => "unexpected number of writers"
  | ErrKeyframeNeeded => "keyframe needed"
  | ErrExist path => "open " +:+ path +:+ ": file exists"
  | ErrExternal msg => msg
  end.

Definition os_IsExist (e : error) : bool :=
  match e with ErrExist _ => true | _ => false end.

(** ** The libraries the writer calls

    [Lib] collects the operations of the Go runtime and of the pion, ebml-go
    and galene packages that [diskwriter.go] calls and that are not part of
    it.  The theorems hold for every instance. *)
Class Lib := {
  runtime_GOOS : string;
  strings_ToLower : string → string;
  filepath_Join : string → string → string;
  (** [t.Format(layout)] for a time [t] in nanoseconds. *)
  time_Format : Z → string → string;
  (** The failure, other than "file exists", that opening a path for
      creation meets, if any. *)
  os_open_fault : string → option string;
  os_MkdirAll : string → option string;
  (** [rtp.Packet] with [Marshal] and [Unmarshal]. *)
  rtp_Packet : Type;
  rtp_Marshal : rtp_Packet → option (list byte);
  rtp_Unmarshal : list byte → option rtp_Packet;
  (** The part of a [samplebuilder.SampleBuilder] that is not the queue of
      complete samples (see [SampleBuilder]). *)
  sb_buffer : Type;
  sb_new : Z → Depacketizer → Z → list Sample * sb_buffer;
  sb_push : list Sample * sb_buffer → rtp_Packet → list Sample * sb_buffer;
  (** [webm.BlockWriteCloser], [webm.NewSimpleBlockWriter] over a file and
      [Write] on a writer. *)
  webm_BlockWriter : Type;
  webm_NewSimpleBlockWriter :
    string → list TrackEntry → error + list webm_BlockWriter;
  webm_Write : webm_BlockWriter → bool → Z → list byte → option error;
  (** [up.AddLocal(conn)]: the error it returns, if any. *)
  up_AddLocal : Up → option error
}.

(** ** Time

    A [time.Time] is the number of nanoseconds since the zero [Time]; the
    zero value of the type is [0].  [Sub] saturates at the bounds of
    [time.Duration] (an [int64] of nanoseconds). *)
Definition maxDuration : Z := 2 ^ 63 - 1.
Definition minDuration : Z := - 2 ^ 63.

Definition time_Sub (t u : Z) : Z :=
  Z.max minDuration (Z.min maxDuration (t - u)).

Definition time_Second : Z := 1000000000.

(** ** File names *)

Definition digit (n : nat) : ascii := ascii_of_nat (48 + n).

(** [fmt.Sprintf("%d", n)]. *)
Fixpoint decimal_go (fuel n : nat) (acc : string) : string :=
  match fuel with
  | O => acc
  | S fuel' =>
      let acc' := String (digit (n mod 10)) acc in
      if (n / 10 =? 0)%nat then acc' else decimal_go fuel' (n / 10) acc'
  end.

Definition decimal (n : nat) : string := decimal_go (S n) n "".

(** [fmt.Sprintf("%02d", n)]: at least two digits, padded with zeros. *)
Definition fmt02d (n : nat) : string :=
  let s := decimal n in
  if (String.length s <? 2)%nat then "0" +:+ s else s.

(** The name tried at round [counter] of [openDiskFile]. *)
Definition candidate (filename : string) (counter : nat) : string :=
  if (counter =? 0)%nat then filename +:+ ".webm"
  else filename +:+ "-" +:+ fmt02d counter +:+ ".webm".

(** * The model *)

Section Model.
Context `{Lib}.

(** ** Objects *)

(** A [samplebuilder.SampleBuilder] is seen through the samples that
    successive calls of [PopWithTimestamp] return until it answers [nil]
    (the queue, oldest first) and the rest of its state, which only [Push]
    reads. *)
Definition SampleBuilder : Type := list Sample * sb_buffer.

Definition samplebuilder_New (maxLate : Z) (d : Depacketizer) (rate : Z)
  : SampleBuilder := sb_new maxLate d rate.

Definition Push (b : SampleBuilder) (p : rtp_Packet) : SampleBuilder :=
  sb_push b p.

(** [PopWithTimestamp]: the sample and its timestamp, a [uint32]. *)
Definition PopWithTimestamp (b : SampleBuilder)
  : option (Sample * Z) * SampleBuilder :=
  match b.1 with
  | [] => (None, b)
  | s :: q => (Some (s, wrap32 (PacketTimestamp s)), (q, b.2))
  end.

Record diskTrack := {
  tr_remote : UpTrack;
  tr_writer : option webm_BlockWriter;
  tr_builder : option SampleBuilder;
  (** bit 32 is a boolean indicating that the origin is valid *)
  tr_origin : Z;  (* uint64 *)
  tr_lastKf : Z   (* uint32 *)
}.

(** [dc_client] is the client the connection reports to; only its group is
    ever reached through it.  [dc_file] is the path of the open file. *)
Record diskConn := {
  dc_client : Group;
  dc_directory : string;
  dc_label : string;
  dc_hasVideo : bool;
  dc_file : option string;
  dc_remote : Up;
  dc_tracks : list diskTrack;
  dc_width : Z;   (* uint32 *)
  dc_height : Z;  (* uint32 *)
  dc_lastWarning : Z
}.

Record Client := {
  cl_group : Group;
  cl_id : string;
  (** connection id to the address of its [diskConn]; a nil map is [∅] *)
  cl_down : gmap string nat;
  cl_closed : bool
}.

(** What the program does to its collaborators, in the order it does it. *)
Inductive Event :=
  | EvLog (message : string)                       (* log.Println *)
  | EvWallOps (g : Group) (message : string)       (* group.WallOps *)
  | EvPop (remote : UpTrack) (sample : Sample)     (* a sample popped *)
  | EvWrite (bw : webm_BlockWriter) (keyframe : bool) (tm : Z)
            (data : list byte)                     (* writer.Write *)
  | EvWriterClose (bw : webm_BlockWriter)          (* writer.Close *)
  | EvFileClose (file : string)                    (* file.Close *)
  | EvDelClient (id : string).                     (* group.DelClient *)

(** The world: the names that exist on disk, the reading of the clock, the
    consumers registered with the upstream by [AddLocal] (connections by
    address, tracks by address and index), the [diskConn] objects, and the
    trace. *)
Record World := {
  fs : gset string;
  now : Z;
  conn_locals : gset nat;
  track_locals : gset (nat * nat);
  heap : gmap nat diskConn;
  trace : list Event
}.

Definition emit (e : Event) (w : World) : World :=
  {| fs := fs w; now := now w; conn_locals := conn_locals w;
     track_locals := track_locals w; heap := heap w;
     trace := trace w ++ [e] |}.

Definition set_fs (s : gset string) (w : World) : World :=
  {| fs := s; now := now w; conn_locals := conn_locals w;
     track_locals := track_locals w; heap := heap w; trace := trace w |}.

Definition set_conn_locals (s : gset nat) (w : World) : World :=
  {| fs := fs w; now := now w; conn_locals := s;
     track_locals := track_locals w; heap := heap w; trace := trace w |}.

Definition set_track_locals (s : gset (nat * nat)) (w : World) : World :=
  {| fs := fs w; now := now w; conn_locals := conn_locals w;
     track_locals := s; heap := heap w; trace := trace w |}.

Definition set_heap (h : gmap nat diskConn) (w : World) : World :=
  {| fs := fs w; now := now w; conn_locals := conn_locals w;
     track_locals := track_locals w; heap := h; trace := trace w |}.

Definition set_writer (bw : option webm_BlockWriter) (t : diskTrack)
  : diskTrack :=
  {| tr_remote := tr_remote t; tr_writer := bw; tr_builder := tr_builder t;
     tr_origin := tr_origin t; tr_lastKf := tr_lastKf t |}.

Definition set_builder (b : option SampleBuilder) (t : diskTrack)
  : diskTrack :=
  {| tr_remote := tr_remote t; tr_writer := tr_writer t; tr_builder := b;
     tr_origin := tr_origin t; tr_lastKf := tr_lastKf t |}.

Definition set_origin (o : Z) (t : diskTrack) : diskTrack :=
  {| tr_remote := tr_remote t; tr_writer := tr_writer t;
     tr_builder := tr_builder t; tr_origin := o; tr_lastKf := tr_lastKf t |}.

Definition set_lastKf (k : Z) (t : diskTrack) : diskTrack :=
  {| tr_remote := tr_remote t; tr_writer := tr_writer t;
     tr_builder := tr_builder t; tr_origin := tr_origin t; tr_lastKf := k |}.

Definition set_file (f : option string) (c : diskConn) : diskConn :=
  {| dc_client := dc_client c; dc_directory := dc_directory c;
     dc_label := dc_label c; dc_hasVideo := dc_hasVideo c; dc_file := f;
     dc_remote := dc_remote c; dc_tracks := dc_tracks c;
     dc_width := dc_width c; dc_height := dc_height c;
     dc_lastWarning := dc_lastWarning c |}.

Definition set_tracks (ts : list diskTrack) (c : diskConn) : diskConn :=
  {| dc_client := dc_client c; dc_directory := dc_directory c;
     dc_label := dc_label c; dc_hasVideo := dc_hasVideo c;
     dc_file := dc_file c; dc_remote := dc_remote c; dc_tracks := ts;
     dc_width := dc_width c; dc_height := dc_height c;
     dc_lastWarning := dc_lastWarning c |}.

Definition set_size (width height : Z) (c : diskConn) : diskConn :=
  {| dc_client := dc_client c; dc_directory := dc_directory c;
     dc_label := dc_label c; dc_hasVideo := dc_hasVideo c;
     dc_file := dc_file c; dc_remote := dc_remote c;
     dc_tracks := dc_tracks c; dc_width := width; dc_height := height;
     dc_lastWarning := dc_lastWarning c |}.

Definition set_lastWarning (t : Z) (c : diskConn) : diskConn :=
  {| dc_client := dc_client c; dc_directory := dc_directory c;
     dc_label := dc_label c; dc_hasVideo := dc_hasVideo c;
     dc_file := dc_file c; dc_remote := dc_remote c;
     dc_tracks := dc_tracks c; dc_width := dc_width c;
     dc_height := dc_height c; dc_lastWarning := t |}.

Definition set_hasVideo (b : bool) (c : diskConn) : diskConn :=
  {| dc_client := dc_client c; dc_directory := dc_directory c;
     dc_label := dc_label c; dc_hasVideo := b; dc_file := dc_file c;
     dc_remote := dc_remote c; dc_tracks := dc_tracks c;
     dc_width := dc_width c; dc_height := dc_height c;
     dc_lastWarning := dc_lastWarning c |}.

(** ** [diskConn.warn] (called locked) *)

Definition warn (w : World) (c : diskConn) (message : string)
  : World * diskConn :=
  if time_Sub (now w) (dc_lastWarning c) <? 10 * time_Second then (w, c)
  else
    (emit (EvWallOps (dc_client c) message) (emit (EvLog message) w),
     set_lastWarning (now w) c).

(** ** [openDiskFile] *)

(** [os.OpenFile(name, os.O_WRONLY|os.O_CREATE|os.O_EXCL, 0600)]: the call
    fails when the name exists and creates the file otherwise. *)
Definition os_OpenFile_excl (w : World) (name : string)
  : (error + string) * World :=
  match os_open_fault name with
  | Some msg => (inl (ErrExternal msg), w)
  | None =>
      if bool_decide (name ∈ fs w) then (inl (ErrExist name), w)
      else (inr name, set_fs ({[name]} ∪ fs w) w)
  end.

(** The loop of [openDiskFile] with [n] rounds left, at [counter]. *)
Fixpoint openDiskFile_loop (n counter : nat) (directory filename : string)
  (w : World) : (error + string) * World :=
  match n with
  | O => (inl ErrCouldntCreate, w)
  | S n' =>
      let fn := filepath_Join directory (candidate filename counter) in
      match os_OpenFile_excl w fn with
      | (inr f, w') => (inr f, w')
      | (inl err, w') =>
          if os_IsExist err
          then openDiskFile_loop n' (S counter) directory filename w'
          else (inl err, w')
      end
  end.

Definition diskFileName (w : World) (label : string) : string :=
  let filenameFormat :=
    if String.eqb runtime_GOOS "windows" then "2006-01-02T15-04-05-000"
    else "2006-01-02T15:04:05.000" in
  let filename := time_Format (now w) filenameFormat in
  if String.eqb label "" then filename else filename +:+ "-" +:+ label.

Definition openDiskFile (w : World) (directory label : string)
  : (error + string) * World :=
  openDiskFile_loop 100 0 directory (diskFileName w label) w.

(** ** [diskConn.reopen] and [diskConn.Close] *)

(** The loop [reopen] and [Close] share: close and forget every writer. *)
Fixpoint closeWriters (w : World) (ts : list diskTrack)
  : World * list diskTrack :=
  match ts with
  | [] => (w, [])
  | t :: ts' =>
      let '(w1, t1) :=
        match tr_writer t with
        | Some bw => (emit (EvWriterClose bw) w, set_writer None t)
        | None => (w, t)
        end in
      let '(w2, ts2) := closeWriters w1 ts' in
      (w2, t1 :: ts2)
  end.

(** called locked *)
Definition reopen (w : World) (c : diskConn)
  : option error * World * diskConn :=
  let '(w1, ts) := closeWriters w (dc_tracks c) in
  let c1 := set_file None (set_tracks ts c) in
  match openDiskFile w1 (dc_directory c1) (dc_label c1) with
  | (inl err, w2) => (Some err, w2, c1)
  | (inr file, w2) => (None, w2, set_file (Some file) c1)
  end.

(** [t.remote.DelLocal(t)] for the tracks [0 .. n-1] of the connection at
    [p]. *)
Definition delTrackLocals (p n : nat) (s : gset (nat * nat))
  : gset (nat * nat) :=
  foldr (λ i s, s ∖ {[(p, i)]}) s (seq 0 n).

(** [Close] of the connection stored at address [p]. *)
Definition diskConn_Close (p : nat) (w : World) (c : diskConn)
  : World * diskConn :=
  let w0 := set_conn_locals (conn_locals w ∖ {[p]}) w in
  let '(w1, ts) := closeWriters w0 (dc_tracks c) in
  let c1 := set_tracks ts c in
  (set_track_locals (delTrackLocals p (length ts) (track_locals w1)) w1, c1).

(** ** [diskConn.initWriter] and [diskTrack.initWriter] (called locked) *)

Definition isMime (codec : Codec) (mime : string) : bool :=
  String.eqb (strings_ToLower (MimeType codec)) mime.

(** The first loop of [diskConn.initWriter], from track index [i] on. *)
Fixpoint trackEntries (i : nat) (ts : list diskTrack) (width height : Z)
  : error + list TrackEntry :=
  match ts with
  | [] => inr []
  | t :: ts' =>
      let codec := track_Codec (tr_remote t) in
      let entry :=
        if isMime codec "audio/opus" then
          Some {| Name := "Audio"; TrackNumber := Z.of_nat i + 1;
                  CodecID := "A_OPUS"; TrackType := 2;
                  Audio := Some (ClockRate codec, Channels codec);
                  Video := None |}
        else if isMime codec "video/vp8" then
          Some {| Name := "Video"; TrackNumber := Z.of_nat i + 1;
                  CodecID := "V_VP8"; TrackType := 1;
                  Audio := None;
                  Video := Some (width, height) |}
        else None in
      match entry with
      | None => inl ErrUnknownTrackType
      | Some e =>
          match trackEntries (S i) ts' width height with
          | inl err => inl err
          | inr es => inr (e :: es)
          end
      end
  end.

(** [t.writer = writers[i]] for every track; the lengths are equal where
    this is called. *)
Definition assignWriters (ts : list diskTrack)
  (writers : list webm_BlockWriter) : list diskTrack :=
  zip_with (λ t bw, set_writer (Some bw) t) ts writers.

Definition diskConn_initWriter (w : World) (c : diskConn) (width height : Z)
  : option error * World * diskConn :=
  if bool_decide (is_Some (dc_file c)) && (width =? dc_width c)
     && (height =? dc_height c)
  then (None, w, c)
  else
    match trackEntries 0 (dc_tracks c) width height with
    | inl err => (Some err, w, c)
    | inr entries =>
        match reopen w c with
        | (Some err, w1, c1) => (Some err, w1, c1)
        | (None, w1, c1) =>
            match dc_file c1 with
            | None =>
                (* not reached: [reopen] has just set the file *)
                (Some (ErrExternal "invalid argument"), w1, c1)
            | Some file =>
                match webm_NewSimpleBlockWriter file entries with
                | inl err =>
                    (Some err, emit (EvFileClose file) w1, set_file None c1)
                | inr writers =>
                    if negb (length writers =? length (dc_tracks c1))%nat
                    then (Some ErrUnexpectedWriters,
                          emit (EvFileClose file) w1, set_file None c1)
                    else
                      let c2 := set_size width height c1 in
                      (None, w1,
                       set_tracks (assignWriters (dc_tracks c2) writers) c2)
                end
            end
        end
    end.

(** [data[i]] as a [uint32]; every use is guarded by a test of the
    length. *)
Definition byteAt (data : list byte) (i : nat) : Z :=
  byteZ (nth i data "000"%byte).

(** [data[0]&0x1 == 0] *)
Definition vp8Keyframe (data : list byte) : bool :=
  Z.land (byteAt data 0) 1 =? 0.

(** The 32-bit little-endian value of [data[6..9]]. *)
Definition vp8Raw (data : list byte) : Z :=
  Z.lor (Z.lor (Z.lor (byteAt data 6) (wrap32 (Z.shiftl (byteAt data 7) 8)))
               (wrap32 (Z.shiftl (byteAt data 8) 16)))
        (wrap32 (Z.shiftl (byteAt data 9) 24)).

Definition vp8Width (data : list byte) : Z := Z.land (vp8Raw data) 0x3FFF.

Definition vp8Height (data : list byte) : Z :=
  Z.land (Z.shiftr (vp8Raw data) 16) 0x3FFF.

Definition diskTrack_initWriter (w : World) (c : diskConn) (t : diskTrack)
  (data : list byte) : option error * World * diskConn :=
  if isMime (track_Codec (tr_remote t)) "video/vp8" then
    if (length data <? 10)%nat then (None, w, c)
    else if negb (vp8Keyframe data) then (None, w, c)
    else diskConn_initWriter w c (vp8Width data) (vp8Height data)
  else (None, w, c).

(** ** [diskTrack.WriteRTP] *)

Definition clonePacket (packet : rtp_Packet) : option rtp_Packet :=
  match rtp_Marshal packet with
  | None => None
  | Some buf => rtp_Unmarshal buf
  end.

(** How one round of the loop of [WriteRTP] ends. *)
Inductive Flow :=
  | Continue (kfNeeded : bool)   (* on to the next round *)
  | Return (err : option error)  (* the call returns [err] *)
  | Panic.                       (* integer divide by zero *)

(** How the [switch] on the codec ends. *)
Inductive Switched :=
  | Skip                               (* [continue] *)
  | Fail (err : error)                 (* [return err] *)
  | Go (keyframe kfNeeded : bool).     (* on to the write *)

Definition alterTrack (f : diskTrack → diskTrack) (i : nat) (c : diskConn)
  : diskConn :=
  set_tracks (alter f i (dc_tracks c)) c.

(** Lines 342-381: classify the sample popped for track [i] (which is [t])
    and make sure a writer exists. *)
Definition WriteRTP_switch (w : World) (c : diskConn) (i : nat)
  (t : diskTrack) (kfNeeded : bool) (sample : Sample) (ts : Z)
  : Switched * World * diskConn :=
  if isMime (track_Codec (tr_remote t)) "video/vp8" then
    if (length (Data sample) <? 1)%nat then (Skip, w, c)
    else if vp8Keyframe (Data sample) then
      match diskTrack_initWriter w c t (Data sample) with
      | (Some err, w1, c1) =>
          let '(w2, c2) :=
            warn w1 c1 ("Write to disk " +:+ error_Error err) in
          (Fail err, w2, c2)
      | (None, w1, c1) => (Go true kfNeeded, w1, alterTrack (set_lastKf ts) i c1)
      end
    else
      match tr_writer t with
      | Some _ =>
          (* Request a keyframe every 10s *)
          let delta := wrap32 (ts - tr_lastKf t) in
          if (Z.land delta 0x80000000 =? 0) && (10 * 90000 <? delta)
          then (Go false true, w, c)
          else (Go false kfNeeded, w, c)
      | None => (Go false kfNeeded, w, c)
      end
  else
    match tr_writer t with
    | None =>
        if negb (dc_hasVideo c) then
          match diskConn_initWriter w c 0 0 with
          | (Some err, w1, c1) =>
              let '(w2, c2) :=
                warn w1 c1 ("Write to disk " +:+ error_Error err) in
              (Fail err, w2, c2)
          | (None, w1, c1) => (Go true kfNeeded, w1, c1)
          end
        else (Go true kfNeeded, w, c)
    | Some _ => (Go true kfNeeded, w, c)
    end.

(** [uint64(ts) | (1 << 32)] *)
Definition markOrigin (ts : Z) : Z := Z.lor ts (Z.shiftl 1 32).

(** Lines 383-399: rebase the timestamp and hand the sample to the writer
    of track [i]. *)
Definition WriteRTP_write (w : World) (c : diskConn) (i : nat)
  (keyframe kfNeeded : bool) (sample : Sample) (ts : Z)
  : Flow * World * diskConn :=
  match dc_tracks c !! i with
  | None => (Return None, w, c)
  | Some t =>
      match tr_writer t with
      | None =>
          (Return (if keyframe then None else Some ErrKeyframeNeeded), w, c)
      | Some bw =>
          let origin :=
            if tr_origin t =? 0 then markOrigin ts else tr_origin t in
          let c1 := alterTrack (set_origin origin) i c in
          let ts' := wrap32 (ts - wrap32 origin) in
          let rate := wrap32 (ClockRate (track_Codec (tr_remote t))) / 1000 in
          if rate =? 0 then (Panic, w, c1)
          else
            let tm := ts' / rate in
            let w1 := emit (EvWrite bw keyframe tm (Data sample)) w in
            match webm_Write bw keyframe tm (Data sample) with
            | Some err => (Return (Some err), w1, c1)
            | None => (Continue kfNeeded, w1, c1)
            end
      end
  end.

(** One round of the loop, for the sample popped for track [i]. *)
Definition WriteRTP_sample (w : World) (c : diskConn) (i : nat)
  (kfNeeded : bool) (sample : Sample) : Flow * World * diskConn :=
  match dc_tracks c !! i with
  | None => (Return None, w, c)
  | Some t =>
      let ts := wrap32 (PacketTimestamp sample) in
      let w0 := emit (EvPop (tr_remote t) sample) w in
      match WriteRTP_switch w0 c i t kfNeeded sample ts with
      | (Skip, w1, c1) => (Continue kfNeeded, w1, c1)
      | (Fail err, w1, c1) => (Return (Some err), w1, c1)
      | (Go keyframe kfNeeded', w1, c1) =>
          WriteRTP_write w1 c1 i keyframe kfNeeded' sample ts
      end
  end.

(** The loop over the queue [q] of the builder; the samples it leaves are
    returned with the result. *)
Fixpoint WriteRTP_loop (q : list Sample) (w : World) (c : diskConn)
  (i : nat) (kfNeeded : bool) : Flow * World * diskConn * list Sample :=
  match q with
  | [] =>
      (Return (if kfNeeded then Some ErrKeyframeNeeded else None), w, c, [])
  | sample :: q' =>
      match WriteRTP_sample w c i kfNeeded sample with
      | (Continue kfNeeded', w1, c1) => WriteRTP_loop q' w1 c1 i kfNeeded'
      | (r, w1, c1) => (r, w1, c1, q')
      end
  end.

(** [WriteRTP] on track [i] of the connection [c]. *)
Definition diskTrack_WriteRTP (w : World) (c : diskConn) (i : nat)
  (packet : rtp_Packet) : Flow * World * diskConn :=
  match dc_tracks c !! i with
  | None => (Return None, w, c)
  | Some t =>
      match tr_builder t with
      | None => (Return None, w, c)
      | Some builder =>
          match clonePacket packet with
          | None => (Return None, w, c)
          | Some p =>
              let b := Push builder p in
              let '(r, w1, c1, q) := WriteRTP_loop b.1 w c i false in
              (r, w1, alterTrack (set_builder (Some (q, b.2))) i c1)
          end
      end
  end.

(** ** [newDiskConn] *)

Definition newTrack (remote : UpTrack) (builder : SampleBuilder)
  : diskTrack :=
  {| tr_remote := remote; tr_writer := None; tr_builder := Some builder;
     tr_origin := 0; tr_lastKf := 0 |}.

(** [conn.tracks = append(conn.tracks, track); remote.AddLocal(track)] for
    the connection at address [p]. *)
Definition addTrack (p : nat) (track : diskTrack) (w : World)
  (conn : diskConn) : World * diskConn :=
  (set_track_locals ({[(p, length (dc_tracks conn))]} ∪ track_locals w) w,
   set_tracks (dc_tracks conn ++ [track]) conn).

(** The loop over the remote tracks. *)
Fixpoint newDiskConn_loop (p : nat) (remoteTracks : list UpTrack)
  (w : World) (conn : diskConn) : option error * World * diskConn :=
  match remoteTracks with
  | [] => (None, w, conn)
  | remote :: rest =>
      let codec := track_Codec remote in
      if isMime codec "audio/opus" then
        let builder := samplebuilder_New 16 OpusPacket (ClockRate codec) in
        let '(w1, conn1) := addTrack p (newTrack remote builder) w conn in
        newDiskConn_loop p rest w1 conn1
      else if isMime codec "video/vp8" then
        if dc_hasVideo conn then (Some ErrMultipleVideo, w, conn)
        else
          let builder := samplebuilder_New 128 VP8Packet (ClockRate codec) in
          let '(w1, conn1) :=
            addTrack p (newTrack remote builder) w (set_hasVideo true conn) in
          newDiskConn_loop p rest w1 conn1
      else
        newDiskConn_loop p rest
          (emit (EvWallOps (dc_client conn)
                   ("Cannot record codec " +:+ MimeType codec)) w)
          conn
  end.

(** The object is allocated at a fresh address; it stays reachable through
    the tracks registered with their remotes also when the call fails. *)
Definition newDiskConn (w : World) (client : Group)
  (directory label : string) (up : Up) (remoteTracks : list UpTrack)
  : (error + nat) * World :=
  let p := fresh (dom (heap w)) in
  let conn :=
    {| dc_client := client; dc_directory := directory; dc_label := label;
       dc_hasVideo := false; dc_file := None; dc_remote := up;
       dc_tracks := []; dc_width := 0; dc_height := 0;
       dc_lastWarning := 0 |} in
  let '(err, w1, conn1) := newDiskConn_loop p remoteTracks w conn in
  let w2 := set_heap (<[p := conn1]> (heap w1)) w1 in
  match err with
  | Some e => (inl e, w2)
  | None =>
      match up_AddLocal up with
      | Some e => (inl e, w2)
      | None => (inr p, set_conn_locals ({[p]} ∪ conn_locals w2) w2)
      end
  end.

(** ** Calls on the objects of the heap *)

Definition Close_at (p : nat) (w : World) : World :=
  match heap w !! p with
  | None => w
  | Some c =>
      let '(w1, c1) := diskConn_Close p w c in
      set_heap (<[p := c1]> (heap w1)) w1
  end.

Definition WriteRTP_at (p i : nat) (packet : rtp_Packet) (w : World)
  : Flow * World :=
  match heap w !! p with
  | None => (Return None, w)
  | Some c =>
      let '(r, w1, c1) := diskTrack_WriteRTP w c i packet in
      (r, set_heap (<[p := c1]> (heap w1)) w1)
  end.

(** ** [Client] *)

(** The package variable [Directory]. *)
Variable Directory : string.

Definition set_down (m : gmap string nat) (closed : bool) (client : Client)
  : Client :=
  {| cl_group := cl_group client; cl_id := cl_id client; cl_down := m;
     cl_closed := closed |}.

Definition Client_Close (client : Client) (w : World)
  : option error * Client * World :=
  let w1 :=
    foldl (λ w kp, Close_at kp.2 w) w (map_to_list (cl_down client)) in
  (None, set_down ∅ true client, w1).

Definition Client_Kick (client : Client) (w : World)
  : option error * Client * World :=
  let '(err, client1, w1) := Client_Close client w in
  (err, client1, emit (EvDelClient (cl_id client)) w1).

(** [up] is [None] for a nil [conn.Up]. *)
Definition Client_PushConn (client : Client) (w : World) (g : Group)
  (id : string) (up : option Up) (tracks : list UpTrack) (label : string)
  : option error * Client * World :=
  if negb (group_key (cl_group client) =? group_key g)%nat
  then (None, client, w)
  else if cl_closed client then (Some ErrClientClosed, client, w)
  else
    let '(client1, w1) :=
      match cl_down client !! id with
      | Some old =>
          (set_down (delete id (cl_down client)) (cl_closed client) client,
           Close_at old w)
      | None => (client, w)
      end in
    match up with
    | None => (None, client1, w1)
    | Some up =>
        let directory :=
          filepath_Join Directory (group_Name (cl_group client1)) in
        match os_MkdirAll directory with
        | Some msg =>
            (Some (ErrExternal msg), client1,
             emit (EvWallOps g ("Write to disk: " +:+ msg)) w1)
        | None =>
            match newDiskConn w1 (cl_group client1) directory label up
                    tracks with
            | (inl err, w2) =>
                (Some err, client1,
                 emit (EvWallOps g ("Write to disk: " +:+ error_Error err))
                   w2)
            | (inr down, w2) =>
                (None,
                 set_down (<[up_Id up := down]> (cl_down client1))
                   (cl_closed client1) client1,
                 w2)
            end
        end
    end.

(** * Predicates of the specification *)

(** The name at round [k], in [directory]. *)
Definition candidatePath (directory filename : string) (k : nat) : string :=
  filepath_Join directory (candidate filename k).

(** The calls of [warn] of one connection, each at its reading of the
    clock. *)
Definition set_now (t : Z) (w : World) : World :=
  {| fs := fs w; now := t; conn_locals := conn_locals w;
     track_locals := track_locals w; heap := heap w; trace := trace w |}.

Fixpoint warnCalls (w : World) (c : diskConn) (calls : list (Z * string))
  : World * diskConn :=
  match calls with
  | [] => (w, c)
  | (t, message) :: rest =>
      let '(w1, c1) := warn (set_now t w) c message in
      warnCalls w1 c1 rest
  end.

(** The rule of the specification: a call at time [t] is announced when at
    least ten seconds have passed since the last announced one, at
    [last]. *)
Fixpoint announced (last : Z) (times : list Z) : list bool :=
  match times with
  | [] => []
  | t :: rest =>
      if 10 * time_Second <=? t - last then true :: announced t rest
      else false :: announced last rest
  end.

(** What the announced calls leave in the trace. *)
Definition announcements (g : Group) (calls : list (Z * string))
  (flags : list bool) : list Event :=
  flat_map (λ cf : (Z * string) * bool,
              if cf.2 then [EvLog cf.1.2; EvWallOps g cf.1.2] else [])
           (zip calls flags).

Definition isWallOps (e : Event) : bool :=
  match e with EvWallOps _ _ => true | _ => false end.

(** The number of notifications sent to the group. *)
Definition notifications (evs : list Event) : nat :=
  length (filter (λ e, isWallOps e = true) evs).

(** The 32-bit little-endian value of four bytes. *)
Definition le32 (b0 b1 b2 b3 : Z) : Z :=
  b0 + 2 ^ 8 * b1 + 2 ^ 16 * b2 + 2 ^ 24 * b3.

(** The size the specification reads off a VP8 key frame: the low 14 bits
    and the bits 16 to 29 of the little-endian value of the bytes 6 to 9. *)
Definition headerRaw (data : list byte) : Z :=
  le32 (byteAt data 6) (byteAt data 7) (byteAt data 8) (byteAt data 9).

Definition headerWidth (data : list byte) : Z := headerRaw data mod 2 ^ 14.

Definition headerHeight (data : list byte) : Z :=
  (headerRaw data / 2 ^ 16) mod 2 ^ 14.

(** ** States of a connection *)

(** No track has a writer. *)
Definition noWriters (c : diskConn) : Prop :=
  Forall (λ t, tr_writer t = None) (dc_tracks c).

(** The test that makes [diskConn.initWriter] a no-op: the file is open and
    the size asked for is the current one. *)
Definition sameSize (c : diskConn) (width height : Z) : Prop :=
  is_Some (dc_file c) ∧ width = dc_width c ∧ height = dc_height c.

(** A call that returns the error [e] and leaves the connection without a
    file and every track without a writer. *)
Definition failsWith (r : option error * World * diskConn) (e : error)
  : Prop :=
  r.1.1 = Some e ∧ dc_file r.2 = None ∧ noWriters r.2.

(** The file is open and the tracks hold, in order, the writers the muxer
    returned for this file and the track entries at the current size. *)
Definition initialized (c : diskConn) : Prop :=
  ∃ file entries writers,
    dc_file c = Some file
    ∧ trackEntries 0 (dc_tracks c) (dc_width c) (dc_height c) = inr entries
    ∧ webm_NewSimpleBlockWriter file entries = inr writers
    ∧ tr_writer <$> dc_tracks c = Some <$> writers.

(** The invariant of the specification: file and writers are all there,
    for the current size, or all absent. *)
Definition allOrNothing (c : diskConn) : Prop :=
  initialized c ∨ (dc_file c = None ∧ noWriters c).

(** The same without the file of a connection that has no writer. *)
Definition writersAllOrNothing (c : diskConn) : Prop :=
  initialized c ∨ noWriters c.

(** Every track has one of the two codecs [newDiskConn] accepts. *)
Definition supportedTrack (t : diskTrack) : bool :=
  isMime (track_Codec (tr_remote t)) "audio/opus"
  || isMime (track_Codec (tr_remote t)) "video/vp8".

Definition tracksSupported (c : diskConn) : Prop :=
  Forall (λ t, supportedTrack t = true) (dc_tracks c).

(** ** Traces *)

Definition isWrite (e : Event) : bool :=
  match e with EvWrite _ _ _ _ => true | _ => false end.

Definition isPop (e : Event) : bool :=
  match e with EvPop _ _ => true | _ => false end.

(** Events that neither pop a sample nor write one. *)
Definition silent (evs : list Event) : Prop :=
  Forall (λ e, isWrite e = false ∧ isPop e = false) evs.

(** [w'] is [w] with more events, [evs], and possibly more files. *)
Definition grows (w w' : World) (evs : list Event) : Prop :=
  trace w' = trace w ++ evs ∧ now w' = now w ∧ heap w' = heap w
  ∧ conn_locals w' = conn_locals w ∧ track_locals w' = track_locals w.

(** The connection [reopen] leaves: the writers are gone and the file is the
    new one, or none when the call failed. *)
Definition reopened (c : diskConn) (file : option string) : diskConn :=
  set_file file (set_tracks (set_writer None <$> dc_tracks c) c).

(** How [diskConn.initWriter] can end. *)
Inductive initWriterOutcome (c : diskConn) (width height : Z)
  : option error → diskConn → Prop :=
  | InitNoop :
      is_Some (dc_file c) → width = dc_width c → height = dc_height c →
      initWriterOutcome c width height None c
  | InitUnknown :
      trackEntries 0 (dc_tracks c) width height = inl ErrUnknownTrackType →
      initWriterOutcome c width height (Some ErrUnknownTrackType) c
  | InitFailed e :
      initWriterOutcome c width height (Some e) (reopened c None)
  | InitDone file entries writers :
      trackEntries 0 (dc_tracks c) width height = inr entries →
      webm_NewSimpleBlockWriter file entries = inr writers →
      length writers = length (dc_tracks c) →
      initWriterOutcome c width height None
        (set_tracks
           (assignWriters (set_writer None <$> dc_tracks c) writers)
           (set_size width height (reopened c (Some file)))).

(** [c'] has the file, the size, the remote tracks and the writers of
    [c]. *)
Definition sameView (c c' : diskConn) : Prop :=
  dc_file c' = dc_file c ∧ dc_width c' = dc_width c
  ∧ dc_height c' = dc_height c ∧ dc_hasVideo c' = dc_hasVideo c
  ∧ tr_remote <$> dc_tracks c' = tr_remote <$> dc_tracks c
  ∧ tr_writer <$> dc_tracks c' = tr_writer <$> dc_tracks c.

(** A sample of a VP8 track that is a key frame long enough for its size to
    be read. *)
Definition parsedKeyframe (remote : UpTrack) (s : Sample) : bool :=
  isMime (track_Codec remote) "video/vp8" && vp8Keyframe (Data s)
  && (10 <=? length (Data s))%nat.

(** The origin of track [k] is recorded and is [o]. *)
Definition originIs (k : nat) (o : Z) (c : diskConn) : Prop :=
  tr_origin <$> dc_tracks c !! k = Some o.

(** ** Video tracks *)

Definition isVideo (remote : UpTrack) : bool :=
  isMime (track_Codec remote) "video/vp8".

(** The number of remote tracks that are VP8, and of tracks of a
    connection that record one. *)
Definition videoRemotes (remotes : list UpTrack) : nat :=
  length (filter (λ r, isVideo r = true) remotes).

Definition videoTracks (c : diskConn) : nat :=
  length (filter (λ t, isVideo (tr_remote t) = true) (dc_tracks c)).

(** The track [newDiskConn] builds for a VP8 remote. *)
Definition videoTrack (remote : UpTrack) : diskTrack :=
  newTrack remote
    (samplebuilder_New 128 VP8Packet (ClockRate (track_Codec remote))).

(** ** Runs of one connection *)

(** What happens to a connection between its construction and its end: a
    packet for one of its tracks, [Close], and the world around it moving on
    (other files appear, the clock advances). *)
Inductive Action :=
  | ActWriteRTP (i : nat) (packet : rtp_Packet)
  | ActClose
  | ActWorld (files : gset string) (t : Z).

Definition act (p : nat) (a : Action) (w : World) (c : diskConn)
  : World * diskConn :=
  match a with
  | ActWriteRTP i packet =>
      let '(_, w1, c1) := diskTrack_WriteRTP w c i packet in (w1, c1)
  | ActClose => diskConn_Close p w c
  | ActWorld files t => (set_now t (set_fs files w), c)
  end.

Fixpoint runConn (p : nat) (acts : list Action) (w : World) (c : diskConn)
  : World * diskConn :=
  match acts with
  | [] => (w, c)
  | a :: rest => let '(w1, c1) := act p a w c in runConn p rest w1 c1
  end.

(** The pop of a key frame of a VP8 track whose size can be read. *)
Definition isParsedPop (e : Event) : bool :=
  match e with EvPop remote s => parsedKeyframe remote s | _ => false end.

(** No write stands in [evs] before the pop of such a key frame, unless
    one has been seen already ([armed]). *)
Fixpoint gated (armed : bool) (evs : list Event) : bool :=
  match evs with
  | [] => true
  | e :: rest =>
      (if isWrite e then armed else true)
      && gated (armed || isParsedPop e) rest
  end.

(** The state of the gate between two points of a run of a connection with
    a video track: the events in between are gated, and the connection is
    still without writers unless a key frame has been parsed. *)
Definition gate (c : diskConn) (evs : list Event) (c' : diskConn) : Prop :=
  dc_hasVideo c' = true
  ∧ (noWriters c →
     gated false evs = true
     ∧ (existsb isParsedPop evs = false → noWriters c')).

(** ** Closed connections *)

(** The connection at address [p], if there is one, has no writer and
    neither it nor any of its tracks is registered with the upstream. *)
Definition closedAt (p : nat) (w : World) : Prop :=
  ∀ c, heap w !! p = Some c →
    noWriters c ∧ (p ∉ conn_locals w)
    ∧ ∀ k, (k < length (dc_tracks c))%nat → (p, k) ∉ track_locals w.

(** Track [i] of the connection has a writer. *)
Definition hasWriter (i : nat) (c : diskConn) : Prop :=
  ∃ t bw, dc_tracks c !! i = Some t ∧ tr_writer t = Some bw.

(** ** What [newDiskConn] builds *)

Definition supportedRemote (remote : UpTrack) : bool :=
  isMime (track_Codec remote) "audio/opus"
  || isMime (track_Codec remote) "video/vp8".

(** The track built for a remote track of a supported codec. *)
Definition builtTrack (remote : UpTrack) : diskTrack :=
  if isMime (track_Codec remote) "audio/opus"
  then newTrack remote
         (samplebuilder_New 16 OpusPacket (ClockRate (track_Codec remote)))
  else videoTrack remote.

(** The notifications for the remote tracks that cannot be recorded. *)
Definition refusals (g : Group) (remotes : list UpTrack) : list Event :=
  (λ r, EvWallOps g ("Cannot record codec " +:+ MimeType (track_Codec r)))
  <$> filter (λ r, supportedRemote r = false) remotes.

End Model.


Arguments SampleBuilder : clear implicits.
Arguments SampleBuilder {_}.

(** * A small instance of the libraries

    The concrete runs below use Unix file names, an error-free file system,
    packets that each carry one complete sample, and a muxer that returns
    one writer per track entry. *)

Definition lowerAscii (a : ascii) : ascii :=
  let n := nat_of_ascii a in
  if (65 <=? n)%nat && (n <=? 90)%nat then ascii_of_nat (n + 32) else a.

Fixpoint lowerString (s : string) : string :=
  match s with
  | EmptyString => EmptyString
  | String a s' => String (lowerAscii a) (lowerString s')
  end.

(** The decimal digits of a number. *)
Fixpoint decimalN_go (fuel : nat) (n : N) (acc : string) : string :=
  match fuel with
  | O => acc
  | S fuel' =>
      let acc' := String (digit (N.to_nat (n mod 10))) acc in
      if (n / 10 =? 0)%N then acc' else decimalN_go fuel' (n / 10)%N acc'
  end.

Definition decimalN (n : N) : string :=
  decimalN_go (S (N.to_nat (N.log2 n))) n "".

(** A packet on the wire: the timestamp in four bytes, most significant
    first, then the payload.  One packet carries one complete sample. *)
Definition plainUnmarshal (buf : list byte) : option (list byte) :=
  if (length buf <? 4)%nat then None else Some buf.

Definition plainSample (p : list byte) : Sample :=
  match p with
  | b3 :: b2 :: b1 :: b0 :: data =>
      {| Data := data;
         PacketTimestamp :=
           ((byteZ b3 * 256 + byteZ b2) * 256 + byteZ b1) * 256 + byteZ b0 |}
  | _ => {| Data := []; PacketTimestamp := 0 |}
  end.

#[local] Instance plainLib : Lib := {|
  runtime_GOOS := "linux";
  strings_ToLower := lowerString;
  filepath_Join := λ dir name, dir +:+ "/" +:+ name;
  time_Format := λ t _, "T" +:+ decimalN (Z.to_N t);
  os_open_fault := λ _, None;
  os_MkdirAll := λ _, None;
  rtp_Packet := list byte;
  rtp_Marshal := Some;
  rtp_Unmarshal := plainUnmarshal;
  sb_buffer := unit;
  sb_new := λ _ _ _, ([], tt);
  sb_push := λ b p, (b.1 ++ [plainSample p], tt);
  webm_BlockWriter := string * nat;
  webm_NewSimpleBlockWriter :=
    λ file entries, inr (map (λ i, (file, i)) (seq 0 (length entries)));
  webm_Write := λ _ _ _ _, None;
  up_AddLocal := λ _, None
|}.


(** A world with nothing but two files of the same time stamp. *)
Definition twoTaken : World :=
  {| fs := {["rec/T5.webm"; "rec/T5-01.webm"]}; now := 5; conn_locals := ∅;
     track_locals := ∅; heap := ∅; trace := [] |}.

(** The objects of the concrete runs: a group, a remote connection with an
    Opus and a VP8 track, an empty world, and connections as [newDiskConn]
    builds them. *)
Definition room : Group := {| group_key := 0; group_Name := "room" |}.

Definition otherRoom : Group := {| group_key := 1; group_Name := "other" |}.

Definition upstream : Up := {| up_key := 0; up_Id := "up" |}.

Definition opusTrack : UpTrack :=
  {| track_key := 1;
     track_Codec :=
       {| MimeType := "audio/opus"; ClockRate := 48000; Channels := 2 |} |}.

Definition vp8Track : UpTrack :=
  {| track_key := 2;
     track_Codec :=
       {| MimeType := "video/VP8"; ClockRate := 90000; Channels := 0 |} |}.

Definition emptyWorld : World :=
  {| fs := ∅; now := 1700000000 * time_Second; conn_locals := ∅;
     track_locals := ∅; heap := ∅; trace := [] |}.

Definition emptyBuilder : SampleBuilder := ([], tt).

Definition connOf (hasVideo : bool) (remotes : list UpTrack) : diskConn :=
  {| dc_client := room; dc_directory := "rec/room"; dc_label := "";
     dc_hasVideo := hasVideo; dc_file := None; dc_remote := upstream;
     dc_tracks := (λ r, newTrack r emptyBuilder) <$> remotes;
     dc_width := 0; dc_height := 0; dc_lastWarning := 0 |}.

Definition audioConn : diskConn := connOf false [opusTrack].

Definition videoConn : diskConn := connOf true [opusTrack; vp8Track].

(** The audio connection once its first sample has opened the file, and
    the same with its origin at a timestamp close to the end of the 32-bit
    range. *)
Definition recordingFile : string := "rec/room/T1700000000000000000.webm".

Definition recordingWriter : webm_BlockWriter := (recordingFile, 0%nat).

Definition recordingTrack : diskTrack :=
  set_writer (Some recordingWriter) (newTrack opusTrack emptyBuilder).

Definition recording : diskConn :=
  set_tracks [recordingTrack] (set_file (Some recordingFile) audioConn).

Definition anchoredTrack : diskTrack :=
  set_origin (markOrigin 4294967196) recordingTrack.

Definition anchored : diskConn := set_tracks [anchoredTrack] recording.

(** A VP8 key frame of 640 by 480 (frame tag, start code, then the two
    sizes in little-endian) and a delta frame. *)
Definition keyframe640 : list byte :=
  ["016"; "002"; "000"; "157"; "001"; "042"; "128"; "002"; "224"; "001";
   "000"; "000"]%byte.

Definition deltaFrame : list byte := ["017"; "002"; "000"; "000"]%byte.

(** Packets of the concrete runs, and a session of the connection with
    both tracks: a delta frame, audio, a key frame, audio again. *)
Definition keyPacket : list byte :=
  (["000"; "000"; "011"; "184"] ++ keyframe640)%byte.

Definition deltaPacket : list byte :=
  (["000"; "000"; "000"; "000"] ++ deltaFrame)%byte.

Definition audioPacket : list byte :=
  ["000"; "000"; "003"; "192"; "001"]%byte.

Definition videoWriter : webm_BlockWriter := (recordingFile, 1%nat).

Definition session : list Action :=
  [ActWriteRTP 1 deltaPacket; ActWriteRTP 0 audioPacket;
   ActWriteRTP 1 keyPacket; ActWriteRTP 0 audioPacket].

Definition sessionTrace : list Event :=
  trace (runConn 0 session emptyWorld videoConn).1.

(** A VP8 track that is being written, its last key frame at 3000 ticks,
    and a delta frame as a sample. *)
Definition keyedTrack : diskTrack :=
  set_writer (Some videoWriter)
    (set_lastKf 3000 (newTrack vp8Track emptyBuilder)).

Definition deltaSample (ts : Z) : Sample :=
  {| Data := deltaFrame; PacketTimestamp := ts |}.

(** An audio track whose clock has fewer than 1000 ticks a second, being
    written. *)
Definition slowTrack : UpTrack :=
  {| track_key := 3;
     track_Codec :=
       {| MimeType := "audio/opus"; ClockRate := 500; Channels := 1 |} |}.

Definition slowWritten : diskTrack :=
  set_writer (Some recordingWriter) (newTrack slowTrack emptyBuilder).

Definition slowConn : diskConn :=
  set_tracks [slowWritten]
    (set_file (Some recordingFile) (connOf false [slowTrack])).

(** A client that holds the recording connection under the identifier of
    its upstream connection, and the world with that connection. *)
Definition recorder : Client :=
  {| cl_group := room; cl_id := "disk"; cl_down := {["up" := 0%nat]};
     cl_closed := false |}.

Definition recordingWorld : World :=
  {| fs := {[recordingFile]}; now := 1700000000 * time_Second;
     conn_locals := {[0%nat]}; track_locals := {[(0%nat, 0%nat)]};
     heap := {[0%nat := recording]}; trace := [] |}.

(** A track of a codec that cannot be recorded, and a connection that
    holds one beside an Opus track. *)
Definition h264Track : UpTrack :=
  {| track_key := 4;
     track_Codec :=
       {| MimeType := "video/H264"; ClockRate := 90000; Channels := 0 |} |}.

Definition mixedConn : diskConn := connOf false [opusTrack; h264Track].

(** * An instance with failures

    The same libraries on a machine where the directory [bad] cannot be
    written, the disk under [full] is full, so that the muxer cannot write
    its header, and the muxer returns no writer for a file under
    [short]. *)
Definition faultyLib : Lib := {|
  runtime_GOOS := "linux";
  strings_ToLower := lowerString;
  filepath_Join := λ dir name, dir +:+ "/" +:+ name;
  time_Format := λ t _, "T" +:+ decimalN (Z.to_N t);
  os_open_fault :=
    λ path, if String.prefix "bad/" path then Some "permission denied"
            else None;
  os_MkdirAll := λ _, None;
  rtp_Packet := list byte;
  rtp_Marshal := Some;
  rtp_Unmarshal := plainUnmarshal;
  sb_buffer := unit;
  sb_new := λ _ _ _, ([], tt);
  sb_push := λ b p, (b.1 ++ [plainSample p], tt);
  webm_BlockWriter := string * nat;
  webm_NewSimpleBlockWriter :=
    λ file entries,
      if String.prefix "full/" file
      then inl (ErrExternal "no space left on device")
      else if String.prefix "short/" file then inr []
      else inr (map (λ i, (file, i)) (seq 0 (length entries)));
  webm_Write := λ _ _ _ _, None;
  up_AddLocal := λ _, None
|}.

Definition faultyWorld : @World faultyLib :=
  {| fs := ∅; now := 1700000000 * time_Second; conn_locals := ∅;
     track_locals := ∅; heap := ∅; trace := [] |}.

(** An audio connection, not yet initialised, that records in
    [directory]. *)
Definition faultyConn (directory : string) : @diskConn faultyLib :=
  {| dc_client := room; dc_directory := directory; dc_label := "";
     dc_hasVideo := false; dc_file := None; dc_remote := upstream;
     dc_tracks := [@newTrack faultyLib opusTrack ([], tt)];
     dc_width := 0; dc_height := 0; dc_lastWarning := 0 |}.
(** * File allocation ([openDiskFile]) *)

Section OpenDiskFile.
Context `{Lib}.

Lemma os_OpenFile_excl_exists w name :
  os_open_fault name = None → name ∈ fs w →
  os_OpenFile_excl w name = (inl (ErrExist name), w).
Proof.
  intros Hf Hin. unfold os_OpenFile_excl. rewrite Hf.
  by rewrite bool_decide_eq_true_2.
Qed.

Lemma os_OpenFile_excl_creates w name :
  os_open_fault name = None → name ∉ fs w →
  os_OpenFile_excl w name = (inr name, set_fs ({[name]} ∪ fs w) w).
Proof.
  intros Hf Hin. unfold os_OpenFile_excl. rewrite Hf.
  by rewrite bool_decide_eq_false_2.
Qed.

Lemma openDiskFile_loop_first n : ∀ counter directory filename w k,
  (∀ j, (counter ≤ j < counter + n)%nat →
        os_open_fault (candidatePath directory filename j) = None) →
  (counter ≤ k < counter + n)%nat →
  (∀ j, (counter ≤ j < k)%nat → candidatePath directory filename j ∈ fs w) →
  candidatePath directory filename k ∉ fs w →
  openDiskFile_loop n counter directory filename w =
    (inr (candidatePath directory filename k),
     set_fs ({[candidatePath directory filename k]} ∪ fs w) w).
Proof.
  induction n as [|n IH]; intros counter directory filename w k Hf Hk Hocc Hfree;
    [lia|].
  cbn [openDiskFile_loop]. fold (candidatePath directory filename counter).
  destruct (decide (k = counter)) as [->|Hne].
  - rewrite os_OpenFile_excl_creates; [done| |done]. apply Hf. lia.
  - rewrite os_OpenFile_excl_exists; [| apply Hf; lia | apply Hocc; lia].
    cbn [os_IsExist]. apply IH.
    + intros j Hj. apply Hf. lia.
    + lia.
    + intros j Hj. apply Hocc. lia.
    + done.
Qed.

Lemma openDiskFile_loop_full n : ∀ counter directory filename w,
  (∀ j, (counter ≤ j < counter + n)%nat →
        os_open_fault (candidatePath directory filename j) = None) →
  (∀ j, (counter ≤ j < counter + n)%nat →
        candidatePath directory filename j ∈ fs w) →
  openDiskFile_loop n counter directory filename w = (inl ErrCouldntCreate, w).
Proof.
  induction n as [|n IH]; intros counter directory filename w Hf Hocc; [done|].
  cbn [openDiskFile_loop]. fold (candidatePath directory filename counter).
  rewrite os_OpenFile_excl_exists; [| apply Hf; lia | apply Hocc; lia].
  cbn [os_IsExist]. apply IH.
  - intros j Hj. apply Hf. lia.
  - intros j Hj. apply Hocc. lia.
Qed.

Lemma openDiskFile_loop_exhausted n : ∀ counter directory filename w w',
  (∀ j, (counter ≤ j < counter + n)%nat →
        os_open_fault (candidatePath directory filename j) = None) →
  openDiskFile_loop n counter directory filename w = (inl ErrCouldntCreate, w') →
  ∀ j, (counter ≤ j < counter + n)%nat →
       candidatePath directory filename j ∈ fs w.
Proof.
  induction n as [|n IH]; intros counter directory filename w w' Hf Hres j Hj;
    [lia|].
  cbn [openDiskFile_loop] in Hres.
  fold (candidatePath directory filename counter) in Hres.
  destruct (decide (candidatePath directory filename counter ∈ fs w))
    as [Hin|Hout].
  - rewrite os_OpenFile_excl_exists in Hres; [| apply Hf; lia | done].
    cbn [os_IsExist] in Hres.
    destruct (decide (j = counter)) as [->|Hne]; [done|].
    eapply IH; [| exact Hres | lia]. intros i Hi. apply Hf. lia.
  - rewrite os_OpenFile_excl_creates in Hres; [| apply Hf; lia | done].
    discriminate.
Qed.

Lemma fmt02d_two_digits k :
  (k < 100)%nat →
  fmt02d k = String (digit (k / 10)) (String (digit (k mod 10)) "").
Proof.
  intros Hk.
  assert (Hall : forallb
            (λ k, String.eqb (fmt02d k)
                    (String (digit (k / 10)) (String (digit (k mod 10)) "")))
            (seq 0 100) = true) by (vm_compute; reflexivity).
  rewrite forallb_forall in Hall.
  apply String.eqb_eq, Hall, in_seq. lia.
Qed.

(** C6: with the candidate names of one attempt (the base name, then the
    base name with the counters 01 to 99 in two digits) and a file system
    given by the set of names that exist, [openDiskFile] creates and
    returns the first candidate that does not exist, and fails with
    "couldn't create file" exactly when all 100 candidates exist. *)
Theorem openDiskFile_first_unused w directory label :
  let filename := diskFileName w label in
  let cand := candidatePath directory filename in
  (∀ k, (k < 100)%nat → os_open_fault (cand k) = None) →
  candidate filename 0 = filename +:+ ".webm"
  ∧ (∀ k, (1 ≤ k ≤ 99)%nat →
       candidate filename k =
         filename +:+ "-"
         +:+ String (digit (k / 10)) (String (digit (k mod 10)) "")
         +:+ ".webm")
  ∧ (∀ k, (k < 100)%nat → (∀ j, (j < k)%nat → cand j ∈ fs w) →
       cand k ∉ fs w →
       openDiskFile w directory label =
         (inr (cand k), set_fs ({[cand k]} ∪ fs w) w))
  ∧ ((openDiskFile w directory label).1 = inl ErrCouldntCreate
     ↔ ∀ k, (k < 100)%nat → cand k ∈ fs w).
Proof.
  intros filename cand Hf. split; [done|]. split; [|split].
  - intros k Hk. unfold candidate.
    destruct k as [|k]; [lia|]. cbn [Nat.eqb].
    rewrite fmt02d_two_digits; [done | lia].
  - intros k Hk Hocc Hfree. unfold openDiskFile.
    apply openDiskFile_loop_first; try done.
    + intros j Hj. apply Hf. lia.
    + lia.
    + intros j Hj. apply Hocc. lia.
  - unfold openDiskFile. split.
    + intros Hres k Hk.
      destruct (openDiskFile_loop 100 0 directory (diskFileName w label) w)
        as [r w'] eqn:Hloop.
      cbn in Hres. subst r.
      eapply openDiskFile_loop_exhausted; [| exact Hloop | lia].
      intros j Hj. apply Hf. lia.
    + intros Hocc. rewrite openDiskFile_loop_full; [done | |].
      * intros j Hj. apply Hf. lia.
      * intros j Hj. apply Hocc. lia.
Qed.

End OpenDiskFile.

Lemma openDiskFile_first_unused_witness :
  openDiskFile twoTaken "rec" "" =
    (inr "rec/T5-02.webm",
     set_fs ({["rec/T5-02.webm"]} ∪ fs twoTaken) twoTaken).
Proof.
  pose proof (openDiskFile_first_unused twoTaken "rec" "" (λ _ _, eq_refl))
    as (_ & _ & Hfirst & _).
  apply (Hfirst 2%nat).
  - lia.
  - intros j Hj.
    destruct j as [|[|j]]; [| | lia];
      match goal with
      | |- ?x ∈ _ => let y := eval vm_compute in x in change x with y
      end; cbn [fs twoTaken]; set_solver.
  - match goal with
    | |- ?x ∉ _ => let y := eval vm_compute in x in change x with y
    end.
    cbn [fs twoTaken]. set_solver.
Defined.

(** * Warnings ([diskConn.warn]) *)

Section Warn.
Context `{Lib}.

Lemma time_Sub_window t u :
  (time_Sub t u <? 10 * time_Second) = (t - u <? 10 * time_Second).
Proof.
  unfold time_Sub, maxDuration, minDuration, time_Second.
  destruct (Z.ltb_spec (t - u) (10 * 1000000000));
    destruct (Z.ltb_spec
                (Z.max (- 2 ^ 63) (Z.min (2 ^ 63 - 1) (t - u)))
                (10 * 1000000000)); try done; lia.
Qed.

Lemma warn_announces w c message :
  10 * time_Second ≤ now w - dc_lastWarning c →
  warn w c message =
    (emit (EvWallOps (dc_client c) message) (emit (EvLog message) w),
     set_lastWarning (now w) c).
Proof.
  intros Hd. unfold warn. rewrite time_Sub_window.
  destruct (Z.ltb_spec (now w - dc_lastWarning c) (10 * time_Second));
    [lia | done].
Qed.

Lemma warn_suppresses w c message :
  now w - dc_lastWarning c < 10 * time_Second → warn w c message = (w, c).
Proof.
  intros Hd. unfold warn. rewrite time_Sub_window.
  destruct (Z.ltb_spec (now w - dc_lastWarning c) (10 * time_Second));
    [done | lia].
Qed.

Lemma warnCalls_trace calls : ∀ w c,
  trace (warnCalls w c calls).1 =
    trace w
    ++ announcements (dc_client c) calls
         (announced (dc_lastWarning c) calls.*1).
Proof.
  induction calls as [|[t message] calls IH]; intros w c.
  - cbn. by rewrite app_nil_r.
  - cbn [warnCalls fmap list_fmap fst announced].
    destruct (Z.leb_spec (10 * time_Second) (t - dc_lastWarning c)) as [Hd|Hd].
    + rewrite warn_announces by done. rewrite IH. cbn.
      by rewrite <- !app_assoc.
    + rewrite warn_suppresses by done. by rewrite IH.
Qed.

Lemma notifications_app evs evs' :
  notifications (evs ++ evs') = (notifications evs + notifications evs')%nat.
Proof. unfold notifications. by rewrite filter_app, length_app. Qed.

(** C8: a call of [warn] sends a notification exactly when at least ten
    seconds have passed since the last call that sent one; the trace of a
    sequence of calls is the one the rule [announced] gives; five calls
    within ten seconds of the first send one notification and a sixth call
    after the window sends a second one. *)
Theorem warn_rate_limited :
  (∀ w c message,
      (10 * time_Second ≤ now w - dc_lastWarning c →
       warn w c message =
         (emit (EvWallOps (dc_client c) message) (emit (EvLog message) w),
          set_lastWarning (now w) c))
      ∧ (now w - dc_lastWarning c < 10 * time_Second →
         warn w c message = (w, c)))
  ∧ (∀ w c calls,
      trace (warnCalls w c calls).1 =
        trace w
        ++ announcements (dc_client c) calls
             (announced (dc_lastWarning c) calls.*1))
  ∧ (∀ w c t1 t2 t3 t4 t5 t6 m1 m2 m3 m4 m5 m6,
      10 * time_Second ≤ t1 - dc_lastWarning c →
      t2 - t1 < 10 * time_Second → t3 - t1 < 10 * time_Second →
      t4 - t1 < 10 * time_Second → t5 - t1 < 10 * time_Second →
      10 * time_Second ≤ t6 - t1 →
      let five := [(t1, m1); (t2, m2); (t3, m3); (t4, m4); (t5, m5)] in
      notifications (trace (warnCalls w c five).1)
        = (notifications (trace w) + 1)%nat
      ∧ notifications (trace (warnCalls w c (five ++ [(t6, m6)])).1)
        = (notifications (trace w) + 2)%nat).
Proof.
  split; [|split].
  - intros w c message. split; [apply warn_announces | apply warn_suppresses].
  - intros. apply warnCalls_trace.
  - intros w c t1 t2 t3 t4 t5 t6 m1 m2 m3 m4 m5 m6 H1 H2 H3 H4 H5 H6 five.
    subst five. rewrite !warnCalls_trace, !notifications_app.
    cbn [fmap list_fmap fst app announced].
    rewrite (proj2 (Z.leb_le _ _) H1).
    rewrite (proj2 (Z.leb_gt _ _) H2), (proj2 (Z.leb_gt _ _) H3).
    rewrite (proj2 (Z.leb_gt _ _) H4), (proj2 (Z.leb_gt _ _) H5).
    rewrite (proj2 (Z.leb_le _ _) H6).
    split; reflexivity.
Qed.

End Warn.

(** * Bits and bytes *)

Section Bits.

Lemma byteZ_range b : 0 ≤ byteZ b < 256.
Proof. unfold byteZ. pose proof (Byte.to_N_bounded b). lia. Qed.

Lemma byteAt_range data i : 0 ≤ byteAt data i < 256.
Proof. apply byteZ_range. Qed.

Lemma wrap32_range z : 0 ≤ wrap32 z < 2 ^ 32.
Proof. unfold wrap32. apply Z.mod_pos_bound. lia. Qed.

Lemma wrap32_small z : 0 ≤ z < 2 ^ 32 → wrap32 z = z.
Proof. intros Hz. unfold wrap32. by apply Z.mod_small. Qed.

Lemma testbit_above a n k : 0 ≤ a < 2 ^ n → 0 ≤ n ≤ k → Z.testbit a k = false.
Proof.
  intros Ha Hk. apply Z.testbit_false; [lia|].
  rewrite Z.div_small; [done|].
  split; [lia|]. apply Z.lt_le_trans with (2 ^ n); [lia|].
  apply Z.pow_le_mono_r; lia.
Qed.

(** Bits that do not overlap: [|] is [+]. *)
Lemma lor_shifted a b n :
  0 ≤ n → 0 ≤ a < 2 ^ n → Z.lor a (Z.shiftl b n) = a + 2 ^ n * b.
Proof.
  intros Hn Ha.
  assert (Hdis : Z.land a (Z.shiftl b n) = 0).
  { apply Z.bits_inj'. intros k Hk. rewrite Z.land_spec, Z.bits_0.
    destruct (Z.lt_ge_cases k n).
    - rewrite Z.shiftl_spec_low by lia. apply andb_false_r.
    - by rewrite (testbit_above a n k) by lia. }
  rewrite <- Z.lxor_lor by done. rewrite <- Z.add_nocarry_lxor by done.
  rewrite Z.shiftl_mul_pow2 by lia. lia.
Qed.

Lemma land_low14 x : Z.land x 0x3FFF = x mod 2 ^ 14.
Proof. change 0x3FFF with (Z.ones 14). apply Z.land_ones. lia. Qed.

Lemma vp8Raw_le32 data : vp8Raw data = headerRaw data.
Proof.
  unfold vp8Raw, headerRaw, le32.
  pose proof (byteAt_range data 6) as H6.
  pose proof (byteAt_range data 7) as H7.
  pose proof (byteAt_range data 8) as H8.
  pose proof (byteAt_range data 9) as H9.
  set (b6 := byteAt data 6) in *. set (b7 := byteAt data 7) in *.
  set (b8 := byteAt data 8) in *. set (b9 := byteAt data 9) in *.
  rewrite !wrap32_small by (rewrite Z.shiftl_mul_pow2 by lia; lia).
  rewrite (lor_shifted b6 b7 8) by lia.
  rewrite (lor_shifted (b6 + 2 ^ 8 * b7) b8 16) by lia.
  rewrite (lor_shifted (b6 + 2 ^ 8 * b7 + 2 ^ 16 * b8) b9 24) by lia.
  done.
Qed.

Lemma vp8Width_header data : vp8Width data = headerWidth data.
Proof.
  unfold vp8Width, headerWidth. by rewrite land_low14, vp8Raw_le32.
Qed.

Lemma vp8Height_header data : vp8Height data = headerHeight data.
Proof.
  unfold vp8Height, headerHeight.
  rewrite land_low14, vp8Raw_le32, Z.shiftr_div_pow2 by lia. done.
Qed.

Lemma vp8Keyframe_low_bit data :
  vp8Keyframe data = negb (Z.testbit (byteAt data 0) 0).
Proof.
  unfold vp8Keyframe. change 1 with (Z.ones 1).
  rewrite Z.land_ones by lia. change (2 ^ 1) with 2.
  rewrite <- Z.bit0_mod. by destruct (Z.testbit (byteAt data 0) 0).
Qed.

Lemma markOrigin_add ts : 0 ≤ ts < 2 ^ 32 → markOrigin ts = ts + 2 ^ 32.
Proof.
  intros Hts. unfold markOrigin. rewrite lor_shifted by lia. lia.
Qed.

Lemma markOrigin_low ts : 0 ≤ ts < 2 ^ 32 → wrap32 (markOrigin ts) = ts.
Proof.
  intros Hts. rewrite markOrigin_add by done. unfold wrap32.
  rewrite <- (Z.mul_1_l (2 ^ 32)) at 1. rewrite Z.mod_add by lia.
  by apply Z.mod_small.
Qed.

Lemma markOrigin_valid ts :
  0 ≤ ts < 2 ^ 32 → Z.testbit (markOrigin ts) 32 = true.
Proof.
  intros Hts. unfold markOrigin. rewrite Z.lor_spec.
  rewrite Z.shiftl_spec by lia. cbn. apply orb_true_r.
Qed.

Lemma markOrigin_nonzero ts : 0 ≤ ts < 2 ^ 32 → markOrigin ts ≠ 0.
Proof. intros Hts. rewrite markOrigin_add by done. lia. Qed.

(** The difference of two timestamps in [uint32] is the distance between
    them, also when the later one has wrapped. *)
Lemma wrap32_rebase ts0 delta :
  0 ≤ delta < 2 ^ 32 → wrap32 (wrap32 (ts0 + delta) - wrap32 ts0) = delta.
Proof.
  intros Hd. unfold wrap32.
  rewrite Zminus_mod_idemp_l, Zminus_mod_idemp_r.
  replace (ts0 + delta - ts0) with delta by lia. by apply Z.mod_small.
Qed.

End Bits.

(** * What each operation leaves unchanged *)

Section Frame.
Context `{Lib}.

Lemma set_writer_None_id t : tr_writer t = None → set_writer None t = t.
Proof. destruct t; cbn; by intros ->. Qed.

Lemma closeWriters_tracks ts : ∀ w,
  (closeWriters w ts).2 = set_writer None <$> ts.
Proof.
  induction ts as [|t ts IH]; intros w; [done|].
  cbn [closeWriters]. destruct (tr_writer t) eqn:Ht.
  - specialize (IH (emit (EvWriterClose w0) w)).
    destruct (closeWriters _ ts); cbn in *. by rewrite IH.
  - specialize (IH w). destruct (closeWriters _ ts); cbn in *.
    by rewrite IH, set_writer_None_id.
Qed.

Lemma silent_app evs evs' : silent evs → silent evs' → silent (evs ++ evs').
Proof. apply Forall_app_2. Qed.

Lemma silent_nil : silent [].
Proof. constructor. Qed.

Lemma grows_refl w : grows w w [].
Proof. unfold grows. by rewrite app_nil_r. Qed.

Lemma grows_trans w1 w2 w3 e1 e2 :
  grows w1 w2 e1 → grows w2 w3 e2 → grows w1 w3 (e1 ++ e2).
Proof.
  intros (? & ? & ? & ? & ?) (? & ? & ? & ? & ?). unfold grows.
  rewrite app_assoc. repeat split; congruence.
Qed.

Lemma grows_emit w e : grows w (emit e w) [e].
Proof. done. Qed.

Lemma closeWriters_grows ts : ∀ w,
  ∃ evs, grows w (closeWriters w ts).1 evs ∧ silent evs.
Proof.
  induction ts as [|t ts IH]; intros w.
  - exists []. split; [apply grows_refl | apply silent_nil].
  - cbn [closeWriters]. destruct (tr_writer t) as [bw|].
    + destruct (IH (emit (EvWriterClose bw) w)) as (evs & Hg & Hs).
      destruct (closeWriters _ ts); cbn in *.
      exists ([EvWriterClose bw] ++ evs). split.
      * eapply grows_trans; [apply grows_emit | done].
      * apply silent_app; [|done]. by repeat constructor.
    + destruct (IH w) as (evs & Hg & Hs).
      destruct (closeWriters _ ts); cbn in *. by exists evs.
Qed.

Lemma os_OpenFile_excl_grows w name : grows w (os_OpenFile_excl w name).2 [].
Proof.
  unfold os_OpenFile_excl, grows.
  repeat case_match; cbn; by rewrite app_nil_r.
Qed.

Lemma os_OpenFile_excl_keeps w name e w' :
  os_OpenFile_excl w name = (inl e, w') → w' = w.
Proof.
  unfold os_OpenFile_excl. repeat case_match; intros; by simplify_eq.
Qed.

Lemma openDiskFile_loop_grows n : ∀ counter directory filename w,
  grows w (openDiskFile_loop n counter directory filename w).2 [].
Proof.
  induction n as [|n IH]; intros counter directory filename w;
    [apply grows_refl|].
  cbn [openDiskFile_loop].
  destruct (os_OpenFile_excl w _) as [[e|f] w'] eqn:Ho.
  - apply os_OpenFile_excl_keeps in Ho as ->.
    destruct (os_IsExist e); [apply IH | apply grows_refl].
  - pose proof (os_OpenFile_excl_grows w
                  (filepath_Join directory (candidate filename counter))) as Hg.
    by rewrite Ho in Hg.
Qed.

Lemma openDiskFile_grows w directory label :
  grows w (openDiskFile w directory label).2 [].
Proof. apply openDiskFile_loop_grows. Qed.

Lemma reopen_spec w c :
  ∃ evs, grows w (reopen w c).1.2 evs ∧ silent evs
  ∧ ((∃ e, (reopen w c).1.1 = Some e ∧ (reopen w c).2 = reopened c None)
     ∨ (∃ file, (reopen w c).1.1 = None
                ∧ (reopen w c).2 = reopened c (Some file))).
Proof.
  unfold reopen.
  destruct (closeWriters_grows (dc_tracks c) w) as (evs & Hg & Hs).
  pose proof (closeWriters_tracks (dc_tracks c) w) as Hts.
  destruct (closeWriters w (dc_tracks c)) as [w1 ts]. cbn in Hg, Hts. subst ts.
  cbn [dc_directory dc_label set_file set_tracks].
  pose proof (openDiskFile_grows w1 (dc_directory c) (dc_label c)) as Hg2.
  destruct (openDiskFile w1 (dc_directory c) (dc_label c)) as [[e|file] w2];
    cbn in Hg2 |- *; exists evs.
  - split; [|split; [done|]].
    + rewrite <- (app_nil_r evs). by eapply grows_trans.
    + left. by exists e.
  - split; [|split; [done|]].
    + rewrite <- (app_nil_r evs). by eapply grows_trans.
    + right. by exists file.
Qed.

Lemma trackEntries_error ts : ∀ i width height e,
  trackEntries i ts width height = inl e → e = ErrUnknownTrackType.
Proof.
  induction ts as [|t ts IH]; intros i width height e; cbn; [done|].
  repeat case_match; intros; simplify_eq; eauto.
Qed.

Lemma diskConn_initWriter_spec w c width height :
  ∃ evs, grows w (diskConn_initWriter w c width height).1.2 evs ∧ silent evs
  ∧ initWriterOutcome c width height
      (diskConn_initWriter w c width height).1.1
      (diskConn_initWriter w c width height).2.
Proof.
  unfold diskConn_initWriter.
  destruct (bool_decide (is_Some (dc_file c)) && (width =? dc_width c)
            && (height =? dc_height c)) eqn:Hsame.
  { exists []. split; [apply grows_refl | split; [apply silent_nil|]].
    apply andb_prop in Hsame as [Hsame Hh]. apply andb_prop in Hsame as [Hf Hw].
    apply bool_decide_eq_true in Hf. apply Z.eqb_eq in Hw, Hh. cbn.
    by constructor. }
  destruct (trackEntries 0 (dc_tracks c) width height) as [e|entries] eqn:Hent.
  { exists []. split; [apply grows_refl | split; [apply silent_nil|]].
    pose proof (trackEntries_error _ _ _ _ _ Hent) as ->. cbn.
    by constructor. }
  destruct (reopen_spec w c) as (evs & Hg & Hs & Hre).
  destruct (reopen w c) as [[r w1] c1]. cbn in Hg, Hre.
  destruct Hre as [(e & -> & ->)|(file & -> & ->)].
  { exists evs. cbn. split; [done | split; [done | constructor]]. }
  cbn [dc_file reopened set_file].
  destruct (webm_NewSimpleBlockWriter file entries) as [e|writers] eqn:Hmux.
  { exists (evs ++ [EvFileClose file]). cbn. split; [|split].
    - eapply grows_trans; [done | apply grows_emit].
    - apply silent_app; [done | by repeat constructor].
    - apply (InitFailed c width height e). }
  change (dc_tracks (reopened c (Some file)))
    with (set_writer None <$> dc_tracks c).
  rewrite length_fmap.
  destruct (length writers =? length (dc_tracks c))%nat eqn:Hlen; cbn [negb].
  - exists evs. cbn. split; [done | split; [done|]].
    apply Nat.eqb_eq in Hlen. by eapply InitDone.
  - exists (evs ++ [EvFileClose file]). cbn. split; [|split].
    + eapply grows_trans; [done | apply grows_emit].
    + apply silent_app; [done | by repeat constructor].
    + apply (InitFailed c width height ErrUnexpectedWriters).
Qed.

End Frame.

(** * Writer initialisation ([diskConn.initWriter]) *)

Section InitWriter.
Context `{Lib}.

Lemma noWriters_reopened c file : noWriters (reopened c file).
Proof.
  unfold noWriters, reopened. cbn. apply Forall_fmap, Forall_true. done.
Qed.

Lemma trackEntries_supported ts : ∀ i width height,
  Forall (λ t, supportedTrack t = true) ts →
  ∃ entries, trackEntries i ts width height = inr entries.
Proof.
  induction ts as [|t ts IH]; intros i width height Hs; [by eexists|].
  apply Forall_cons in Hs as [Ht Hs]. cbn [trackEntries].
  destruct (IH (S i) width height Hs) as (es & ->).
  unfold supportedTrack in Ht. apply orb_prop in Ht.
  destruct (isMime (track_Codec (tr_remote t)) "audio/opus"); [by eexists|].
  destruct Ht as [? | ->]; [done | by eexists].
Qed.

Lemma sameSize_test c width height :
  bool_decide (is_Some (dc_file c)) && (width =? dc_width c)
  && (height =? dc_height c) = true
  ↔ sameSize c width height.
Proof.
  unfold sameSize.
  rewrite !andb_true_iff, bool_decide_eq_true, !Z.eqb_eq. tauto.
Qed.

Lemma sameSize_test_false c width height :
  ¬ sameSize c width height →
  bool_decide (is_Some (dc_file c)) && (width =? dc_width c)
  && (height =? dc_height c) = false.
Proof.
  intros Hns. apply not_true_is_false. intros Ht. by apply Hns, sameSize_test.
Qed.

Lemma noWriters_closed_file c file :
  noWriters (set_file None (reopened c file)).
Proof.
  unfold noWriters, reopened. cbn. apply Forall_fmap, Forall_true. done.
Qed.

(** C4: [initWriter] at the size the open file already has returns [nil]
    and changes nothing.  Otherwise, once the track entries are built, each
    of the three failures is returned to the caller and leaves the
    connection without a file and every track without a writer: the
    failure of [reopen] to open a file, the failure of the muxer on the new
    file and the entries, and a number of writers that is not the number of
    tracks.  Conversely every error the call returns is one of these three,
    or the "unknown track type" of the loop that builds the entries, which
    returns before anything is touched. *)
Theorem diskConn_initWriter_contract w c width height :
  (is_Some (dc_file c) → width = dc_width c → height = dc_height c →
   diskConn_initWriter w c width height = (None, w, c))
  ∧ (¬ sameSize c width height →
     ∀ entries, trackEntries 0 (dc_tracks c) width height = inr entries →
       (∀ e, (reopen w c).1.1 = Some e →
          failsWith (diskConn_initWriter w c width height) e)
       ∧ (∀ file, dc_file (reopen w c).2 = Some file →
            (∀ e, webm_NewSimpleBlockWriter file entries = inl e →
               failsWith (diskConn_initWriter w c width height) e)
            ∧ (∀ writers,
                 webm_NewSimpleBlockWriter file entries = inr writers →
                 length writers ≠ length (dc_tracks c) →
                 failsWith (diskConn_initWriter w c width height)
                   ErrUnexpectedWriters)))
  ∧ (∀ e, (diskConn_initWriter w c width height).1.1 = Some e →
       (trackEntries 0 (dc_tracks c) width height = inl e
        ∧ diskConn_initWriter w c width height = (Some e, w, c))
       ∨ (failsWith (diskConn_initWriter w c width height) e
          ∧ ∃ entries,
              trackEntries 0 (dc_tracks c) width height = inr entries
              ∧ ((reopen w c).1.1 = Some e
                 ∨ ∃ file,
                     dc_file (reopen w c).2 = Some file
                     ∧ (webm_NewSimpleBlockWriter file entries = inl e
                        ∨ ∃ writers,
                            webm_NewSimpleBlockWriter file entries
                            = inr writers
                            ∧ length writers ≠ length (dc_tracks c)
                            ∧ e = ErrUnexpectedWriters)))).
Proof.
  split; [|split].
  - intros Hf -> ->. unfold diskConn_initWriter.
    rewrite bool_decide_eq_true_2 by done. by rewrite !Z.eqb_refl.
  - intros Hns entries He. unfold diskConn_initWriter.
    rewrite (sameSize_test_false _ _ _ Hns), He.
    destruct (reopen_spec w c) as (evs & _ & _ & Hre).
    destruct (reopen w c) as [[r w1] c1]; cbn in Hre |- *.
    destruct Hre as [(e0 & -> & ->)|(file0 & -> & ->)].
    + split; [|intros file Hf; discriminate Hf].
      intros e [= ->]. split; [done|]. split; [done|].
      apply noWriters_reopened.
    + split; [intros e He0; discriminate He0|].
      intros file [= <-]. cbn [dc_file reopened set_file].
      change (dc_tracks (reopened c (Some file0)))
        with (set_writer None <$> dc_tracks c).
      rewrite length_fmap. split.
      * intros e ->. split; [done|]. split; [done|].
        apply noWriters_closed_file.
      * intros writers -> Hlen.
        destruct (Nat.eqb_spec (length writers) (length (dc_tracks c)));
          [done|].
        split; [done|]. split; [done|]. apply noWriters_closed_file.
  - intros e. unfold diskConn_initWriter.
    destruct (bool_decide (is_Some (dc_file c)) && (width =? dc_width c)
              && (height =? dc_height c)); [done|].
    destruct (trackEntries 0 (dc_tracks c) width height) as [e0|entries];
      [intros [= ->]; by left|].
    destruct (reopen_spec w c) as (evs & _ & _ & Hre).
    destruct (reopen w c) as [[r w1] c1]; cbn in Hre |- *.
    destruct Hre as [(e0 & -> & ->)|(file0 & -> & ->)].
    + intros [= ->]. right. split; [|exists entries; split; [done | by left]].
      split; [done|]. split; [done|]. apply noWriters_reopened.
    + cbn [dc_file reopened set_file].
      change (dc_tracks (reopened c (Some file0)))
        with (set_writer None <$> dc_tracks c).
      rewrite length_fmap.
      destruct (webm_NewSimpleBlockWriter file0 entries) as [e1|writers]
        eqn:Hm.
      * intros [= ->]. right. split.
        { split; [done|]. split; [done|]. apply noWriters_closed_file. }
        exists entries. split; [done|]. right. exists file0.
        split; [done|]. by left.
      * destruct (Nat.eqb_spec (length writers) (length (dc_tracks c)));
          [done|].
        intros [= <-]. right. split.
        { split; [done|]. split; [done|]. apply noWriters_closed_file. }
        exists entries. split; [done|]. right. exists file0.
        split; [done|]. right. by exists writers.
Qed.

End InitWriter.

Lemma diskConn_initWriter_contract_witness :
  failsWith (diskConn_initWriter faultyWorld (faultyConn "bad") 0 0)
    (ErrExternal "permission denied")
  ∧ failsWith (diskConn_initWriter faultyWorld (faultyConn "full") 0 0)
      (ErrExternal "no space left on device")
  ∧ failsWith (diskConn_initWriter faultyWorld (faultyConn "short") 0 0)
      ErrUnexpectedWriters.
Proof.
  assert (Hns : ∀ directory, ¬ sameSize (faultyConn directory) 0 0).
  { intros directory [[file Hf] _]. discriminate Hf. }
  split; [|split].
  - destruct (diskConn_initWriter_contract (H:=faultyLib) faultyWorld
                (faultyConn "bad") 0 0) as (_ & Hfail & _).
    edestruct (Hfail (Hns "bad")) as [Hopen _]; [reflexivity|].
    apply Hopen. vm_compute. reflexivity.
  - destruct (diskConn_initWriter_contract (H:=faultyLib) faultyWorld
                (faultyConn "full") 0 0) as (_ & Hfail & _).
    edestruct (Hfail (Hns "full")) as [_ Hfile]; [reflexivity|].
    edestruct Hfile as [Hmux _]; [vm_compute; reflexivity|].
    apply Hmux. vm_compute. reflexivity.
  - destruct (diskConn_initWriter_contract (H:=faultyLib) faultyWorld
                (faultyConn "short") 0 0) as (_ & Hfail & _).
    edestruct (Hfail (Hns "short")) as [_ Hfile]; [reflexivity|].
    edestruct Hfile as [_ Hcount]; [vm_compute; reflexivity|].
    apply (Hcount []); [vm_compute; reflexivity | cbn; lia].
Defined.

(** * The invariant of a connection *)

Section Invariant.
Context `{Lib}.

Lemma fmap_alter_same {A B} (f : A → B) (g : A → A) (l : list A) : ∀ i,
  (∀ x, f (g x) = f x) → f <$> alter g i l = f <$> l.
Proof.
  induction l as [|x l IH]; intros i Hfg; [done|].
  destruct i as [|i]; cbn; [by rewrite Hfg|]. f_equal. by apply IH.
Qed.

Lemma sameView_refl c : sameView c c.
Proof. by repeat split. Qed.

Lemma sameView_trans c1 c2 c3 :
  sameView c1 c2 → sameView c2 c3 → sameView c1 c3.
Proof.
  intros (? & ? & ? & ? & ? & ?) (? & ? & ? & ? & ? & ?).
  repeat split; congruence.
Qed.

Lemma sameView_alterTrack f i c :
  (∀ t, tr_remote (f t) = tr_remote t) →
  (∀ t, tr_writer (f t) = tr_writer t) →
  sameView c (alterTrack f i c).
Proof.
  intros Hr Hw. unfold sameView, alterTrack. cbn.
  rewrite !fmap_alter_same by done. by repeat split.
Qed.

Lemma sameView_warn w c message : sameView c (warn w c message).2.
Proof. unfold warn. case_match; by repeat split. Qed.

Lemma warn_grows w c message :
  ∃ evs, grows w (warn w c message).1 evs ∧ silent evs.
Proof.
  unfold warn. case_match.
  - exists []. split; [apply grows_refl | apply silent_nil].
  - exists ([EvLog message] ++ [EvWallOps (dc_client c) message]). split.
    + eapply grows_trans; apply grows_emit.
    + by repeat constructor.
Qed.

Lemma warn_tracks w c message : dc_tracks (warn w c message).2 = dc_tracks c.
Proof. unfold warn. by case_match. Qed.

Lemma trackEntries_remotes ts : ∀ ts' i width height,
  tr_remote <$> ts = tr_remote <$> ts' →
  trackEntries i ts width height = trackEntries i ts' width height.
Proof.
  induction ts as [|t ts IH]; intros [|t' ts'] i width height Heq;
    try done.
  cbn in Heq. injection Heq as Ht Hts. cbn [trackEntries].
  by rewrite Ht, (IH ts' (S i) width height Hts).
Qed.

Lemma noWriters_fmap ts :
  Forall (λ t, tr_writer t = None) ts
  ↔ Forall (λ o : option webm_BlockWriter, o = None) (tr_writer <$> ts).
Proof. by rewrite Forall_fmap. Qed.

Lemma noWriters_view c c' : sameView c c' → noWriters c → noWriters c'.
Proof.
  intros (_ & _ & _ & _ & _ & Hw). unfold noWriters.
  rewrite !noWriters_fmap. by rewrite Hw.
Qed.

Lemma initialized_view c c' : sameView c c' → initialized c → initialized c'.
Proof.
  intros (Hf & Hwd & Hh & _ & Hr & Hw) (file & entries & writers & H1 & H2 & H3 & H4).
  exists file, entries, writers. rewrite Hf, Hwd, Hh, Hw.
  by rewrite (trackEntries_remotes _ _ _ _ _ Hr).
Qed.

Lemma allOrNothing_view c c' : sameView c c' → allOrNothing c → allOrNothing c'.
Proof.
  intros Hv [Hi|[Hf Hn]].
  - left. by eapply initialized_view.
  - right. split; [|by eapply noWriters_view].
    destruct Hv as (-> & _). done.
Qed.

Lemma writersAllOrNothing_view c c' :
  sameView c c' → writersAllOrNothing c → writersAllOrNothing c'.
Proof.
  intros Hv [Hi|Hn].
  - left. by eapply initialized_view.
  - right. by eapply noWriters_view.
Qed.

Lemma assignWriters_writers ts : ∀ writers,
  length writers = length ts →
  tr_writer <$> assignWriters ts writers = Some <$> writers.
Proof.
  induction ts as [|t ts IH]; intros [|bw writers] Hlen; try done.
  cbn. f_equal. apply IH. cbn in Hlen. lia.
Qed.

Lemma assignWriters_fmap {B} (f : diskTrack → B) ts : ∀ writers,
  (∀ t bw, f (set_writer bw t) = f t) →
  length writers = length ts →
  f <$> assignWriters ts writers = f <$> ts.
Proof.
  induction ts as [|t ts IH]; intros [|bw writers] Hf Hlen; try done.
  cbn. rewrite Hf. f_equal. apply IH; [done|]. cbn in Hlen. lia.
Qed.

Lemma unset_writers_fmap {B} (f : diskTrack → B) (ts : list diskTrack) :
  (∀ t bw, f (set_writer bw t) = f t) →
  f <$> (set_writer None <$> ts) = f <$> ts.
Proof.
  intros Hf. rewrite <- list_fmap_compose. apply list_fmap_ext.
  intros ? t _. apply Hf.
Qed.

(** What [initWriter] never changes in the tracks. *)
Lemma initWriterOutcome_fmap {B} (f : diskTrack → B) c width height r c' :
  (∀ t bw, f (set_writer bw t) = f t) →
  initWriterOutcome c width height r c' →
  f <$> dc_tracks c' = f <$> dc_tracks c.
Proof.
  intros Hf Hout. inversion Hout; subst; try done.
  - cbn. by apply unset_writers_fmap.
  - cbn. rewrite assignWriters_fmap; [by apply unset_writers_fmap | done |].
    by rewrite length_fmap.
Qed.

Lemma initWriterOutcome_hasVideo c width height r c' :
  initWriterOutcome c width height r c' → dc_hasVideo c' = dc_hasVideo c.
Proof. intros Hout. by inversion Hout; subst. Qed.

Lemma initWriterOutcome_initialized c width height c' :
  initWriterOutcome c width height None c' →
  writersAllOrNothing c → writersAllOrNothing c'.
Proof.
  intros Hout Hc. inversion Hout as [| | |file entries writers He Hm Hl]; subst;
    [done|].
  left. exists file, entries, writers. cbn.
  split; [done|]. split; [|split; [done|]].
  - rewrite <- He. apply trackEntries_remotes.
    rewrite assignWriters_fmap; [by apply unset_writers_fmap | done |].
    by rewrite length_fmap.
  - apply assignWriters_writers. by rewrite length_fmap.
Qed.

Lemma initWriterOutcome_allOrNothing c width height r c' :
  initWriterOutcome c width height r c' →
  allOrNothing c → allOrNothing c'.
Proof.
  intros Hout Hc.
  inversion Hout as [| | |file entries writers He Hm Hl]; subst; try done.
  - right. split; [done | apply noWriters_reopened].
  - left. exists file, entries, writers. cbn.
    split; [done|]. split; [|split; [done|]].
    + rewrite <- He. apply trackEntries_remotes.
      rewrite assignWriters_fmap; [by apply unset_writers_fmap | done |].
      by rewrite length_fmap.
    + apply assignWriters_writers. by rewrite length_fmap.
Qed.

Lemma initWriterOutcome_writersAllOrNothing c width height r c' :
  initWriterOutcome c width height r c' →
  writersAllOrNothing c → writersAllOrNothing c'.
Proof.
  intros Hout Hc. destruct r as [e|].
  - inversion Hout; subst; [done|]. right. apply noWriters_reopened.
  - by eapply initWriterOutcome_initialized.
Qed.

End Invariant.

(** * One round of [WriteRTP] *)

Section Round.
Context `{Lib}.

Lemma parsedKeyframe_intro t (s : Sample) :
  isMime (track_Codec (tr_remote t)) "video/vp8" = true →
  vp8Keyframe (Data s) = true → (length (Data s) <? 10)%nat = false →
  parsedKeyframe (tr_remote t) s = true.
Proof.
  intros Hv Hk Hl. unfold parsedKeyframe. rewrite Hv, Hk. cbn [andb].
  apply Nat.ltb_ge in Hl. by apply Nat.leb_le.
Qed.

Lemma warn_after w c message w' c' :
  warn w c message = (w', c') →
  (∃ evs, grows w w' evs ∧ silent evs) ∧ sameView c c'
  ∧ dc_tracks c' = dc_tracks c.
Proof.
  intros Hw. pose proof (warn_grows w c message) as Hg.
  pose proof (sameView_warn w c message) as Hv.
  pose proof (warn_tracks w c message) as Ht.
  rewrite Hw in Hg, Hv, Ht. done.
Qed.

Ltac same_conn :=
  split;
  [ exists []; split; [apply grows_refl | apply silent_nil]
  | eexists; split; [apply sameView_refl | split; [done | by left]] ].

(** The switch on the codec changes the connection by at most one call of
    [initWriter], made either for a key frame of a VP8 track whose size can
    be read or, at size zero, for a track that is not VP8 on a connection
    without video. *)
Lemma WriteRTP_switch_spec w c i t kf s ts sw w' c' :
  WriteRTP_switch w c i t kf s ts = (sw, w', c') →
  (∃ evs, grows w w' evs ∧ silent evs)
  ∧ ∃ c1, sameView c1 c'
      ∧ tr_origin <$> dc_tracks c' = tr_origin <$> dc_tracks c1
      ∧ (c1 = c
         ∨ (parsedKeyframe (tr_remote t) s = true
            ∧ ∃ r, initWriterOutcome c (vp8Width (Data s))
                     (vp8Height (Data s)) r c1)
         ∨ (isMime (track_Codec (tr_remote t)) "video/vp8" = false
            ∧ dc_hasVideo c = false
            ∧ ∃ r, initWriterOutcome c 0 0 r c1)).
Proof.
  intros Hsw. unfold WriteRTP_switch in Hsw.
  destruct (isMime (track_Codec (tr_remote t)) "video/vp8") eqn:Hvp8.
  - destruct (length (Data s) <? 1)%nat; [simplify_eq; same_conn|].
    destruct (vp8Keyframe (Data s)) eqn:Hkf.
    + unfold diskTrack_initWriter in Hsw. rewrite Hvp8, Hkf in Hsw.
      cbn [negb] in Hsw.
      destruct (length (Data s) <? 10)%nat eqn:Hlen.
      { simplify_eq. split.
        - exists []. split; [apply grows_refl | apply silent_nil].
        - exists c. split; [by apply sameView_alterTrack|].
          split; [|by left]. cbn. by apply fmap_alter_same. }
      destruct (diskConn_initWriter_spec w c (vp8Width (Data s))
                  (vp8Height (Data s))) as (evs & Hg & Hs & Hout).
      destruct (diskConn_initWriter w c _ _) as [[r w1] c1]. cbn in Hg, Hout.
      destruct r as [e|].
      * destruct (warn w1 c1 _) as [w2 c2] eqn:Hwarn. simplify_eq.
        apply warn_after in Hwarn as ((evs2 & Hg2 & Hs2) & Hv & Ht).
        split.
        -- exists (evs ++ evs2). split; [by eapply grows_trans|].
           by apply silent_app.
        -- exists c1. split; [done|]. split; [by rewrite Ht|].
           right. left. split; [by apply parsedKeyframe_intro | by eexists].
      * simplify_eq. split; [by exists evs|].
        exists c1. split; [by apply sameView_alterTrack|].
        split; [cbn; by apply fmap_alter_same|].
        right. left. split; [by apply parsedKeyframe_intro | by eexists].
    + destruct (tr_writer t); [|simplify_eq; same_conn].
      case_match; simplify_eq; same_conn.
  - destruct (tr_writer t); [simplify_eq; same_conn|].
    destruct (dc_hasVideo c) eqn:Hvid; cbn [negb] in Hsw; [simplify_eq; same_conn|].
    destruct (diskConn_initWriter_spec w c 0 0) as (evs & Hg & Hs & Hout).
    destruct (diskConn_initWriter w c 0 0) as [[r w1] c1]. cbn in Hg, Hout.
    destruct r as [e|].
    + destruct (warn w1 c1 _) as [w2 c2] eqn:Hwarn. simplify_eq.
      apply warn_after in Hwarn as ((evs2 & Hg2 & Hs2) & Hv & Ht).
      split.
      * exists (evs ++ evs2). split; [by eapply grows_trans|].
        by apply silent_app.
      * exists c1. split; [done|]. split; [by rewrite Ht|].
        right. right. split; [done|]. split; [done | by eexists].
    + simplify_eq. split; [by exists evs|].
      exists c'. split; [apply sameView_refl|]. split; [done|].
      right. right. split; [done|]. split; [done | by eexists].
Qed.

(** The write changes at most the origin of track [i], and emits at most
    one event, the write itself. *)
Lemma WriteRTP_write_spec w c i keyframe kf s ts r w' c' :
  WriteRTP_write w c i keyframe kf s ts = (r, w', c') →
  sameView c c'
  ∧ ((w' = w ∧ (noWriters c → c' = c))
     ∨ ∃ t bw tm,
         dc_tracks c !! i = Some t ∧ tr_writer t = Some bw
         ∧ w' = emit (EvWrite bw keyframe tm (Data s)) w).
Proof.
  unfold WriteRTP_write. intros Hw.
  destruct (dc_tracks c !! i) as [t|] eqn:Ht;
    [|simplify_eq; split; [apply sameView_refl | by left]].
  destruct (tr_writer t) as [bw|] eqn:Hbw;
    [|simplify_eq; split; [apply sameView_refl | by left]].
  repeat case_match; simplify_eq;
    (split; [by apply sameView_alterTrack|]).
  all: first
    [ right; by eexists _, _, _
    | left; split; [done|]; intros Hn;
      eapply Forall_lookup_1 in Hn; [|done]; cbn in Hn; congruence ].
Qed.

(** One round changes the connection by at most one call of
    [initWriter]. *)
Lemma WriteRTP_sample_conn w c i kf s r w' c' :
  WriteRTP_sample w c i kf s = (r, w', c') →
  ∃ c1, sameView c1 c'
    ∧ (c1 = c ∨ ∃ width height r0, initWriterOutcome c width height r0 c1).
Proof.
  unfold WriteRTP_sample. intros Hs.
  destruct (dc_tracks c !! i) as [t|];
    [|simplify_eq; exists c'; split; [apply sameView_refl | by left]].
  destruct (WriteRTP_switch _ c i t kf s _) as [[sw w1] c1] eqn:Hsw.
  apply WriteRTP_switch_spec in Hsw as (_ & c0 & Hv & _ & Hc0).
  assert (Hstep : c0 = c
            ∨ ∃ width height r0, initWriterOutcome c width height r0 c0).
  { destruct Hc0 as [?|[(_ & r0 & ?)|(_ & _ & r0 & ?)]]; eauto. }
  destruct sw as [|e|keyframe kf'].
  - simplify_eq. by exists c0.
  - simplify_eq. by exists c0.
  - apply WriteRTP_write_spec in Hs as [Hv2 _].
    exists c0. split; [by eapply sameView_trans | done].
Qed.

(** A property of the world and the connection that every round keeps is
    kept by the loop. *)
Lemma WriteRTP_loop_keeps (P : World → diskConn → Prop) i :
  (∀ w c kf s r w' c',
     P w c → WriteRTP_sample w c i kf s = (r, w', c') → P w' c') →
  ∀ q w c kf r w' c' q',
    P w c → WriteRTP_loop q w c i kf = (r, w', c', q') → P w' c'.
Proof.
  intros Hstep q. induction q as [|s q IH]; intros w c kf r w' c' q' HP Hl.
  - cbn in Hl. by simplify_eq.
  - cbn [WriteRTP_loop] in Hl.
    destruct (WriteRTP_sample w c i kf s) as [[r1 w1] c1] eqn:Hs.
    pose proof (Hstep _ _ _ _ _ _ _ HP Hs) as HP1.
    destruct r1; simplify_eq; eauto.
Qed.

(** A property of the connection that [initWriter] keeps and that depends
    only on what [sameView] compares is kept by [WriteRTP]. *)
Lemma diskTrack_WriteRTP_keeps (P : diskConn → Prop) w c i packet :
  (∀ c1 c2, sameView c1 c2 → P c1 → P c2) →
  (∀ c1 width height r c2,
     initWriterOutcome c1 width height r c2 → P c1 → P c2) →
  P c → P (diskTrack_WriteRTP w c i packet).2.
Proof.
  intros Hview Hinit HP. unfold diskTrack_WriteRTP.
  destruct (dc_tracks c !! i) as [t|]; [|done].
  destruct (tr_builder t) as [builder|]; [|done].
  destruct (clonePacket packet) as [p|]; [|done].
  destruct (WriteRTP_loop _ w c i false) as [[[r w1] c1] q] eqn:Hloop. cbn.
  eapply Hview; [apply sameView_alterTrack; by intros []|].
  eapply (WriteRTP_loop_keeps (λ _ c, P c)); [|exact HP|exact Hloop].
  intros w2 c2 kf smp r2 w3 c3 HP2 Hs.
  apply WriteRTP_sample_conn in Hs as (c0 & Hv & [->|(wd & ht & r0 & Hout)]).
  - by eapply Hview.
  - eapply Hview; [done|]. by eapply Hinit.
Qed.

Lemma diskConn_Close_conn p w c :
  (diskConn_Close p w c).2 = set_tracks (set_writer None <$> dc_tracks c) c.
Proof.
  unfold diskConn_Close.
  pose proof (closeWriters_tracks (dc_tracks c)
                (set_conn_locals (conn_locals w ∖ {[p]}) w)) as Hts.
  destruct (closeWriters _ (dc_tracks c)) as [w1 ts]. cbn in Hts |- *.
  by rewrite Hts.
Qed.

Lemma noWriters_Close p w c : noWriters (diskConn_Close p w c).2.
Proof.
  rewrite diskConn_Close_conn. unfold noWriters. cbn.
  apply Forall_fmap, Forall_true. done.
Qed.

End Round.

(** * The invariant under the three operations *)

Section ConnInvariant.
Context `{Lib}.

(** C1, as the code has it: [initWriter] and [WriteRTP] keep the invariant
    that the file and the writers are all there, for the current size, or
    all absent; [Close] leaves every track without a writer, and the three
    operations keep the writers all there, with their file, or all
    absent. *)
Theorem connection_invariant w c :
  (∀ width height,
      allOrNothing c →
      allOrNothing (diskConn_initWriter w c width height).2)
  ∧ (∀ i packet,
      allOrNothing c → allOrNothing (diskTrack_WriteRTP w c i packet).2)
  ∧ (∀ width height,
      writersAllOrNothing c →
      writersAllOrNothing (diskConn_initWriter w c width height).2)
  ∧ (∀ i packet,
      writersAllOrNothing c →
      writersAllOrNothing (diskTrack_WriteRTP w c i packet).2)
  ∧ (∀ p, noWriters (diskConn_Close p w c).2
          ∧ writersAllOrNothing (diskConn_Close p w c).2).
Proof.
  repeat split.
  - intros width height Hc.
    destruct (diskConn_initWriter_spec w c width height) as (_ & _ & _ & Hout).
    by eapply initWriterOutcome_allOrNothing.
  - intros i packet Hc.
    apply diskTrack_WriteRTP_keeps; [| |done].
    + apply allOrNothing_view.
    + intros. by eapply initWriterOutcome_allOrNothing.
  - intros width height Hc.
    destruct (diskConn_initWriter_spec w c width height) as (_ & _ & _ & Hout).
    by eapply initWriterOutcome_writersAllOrNothing.
  - intros i packet Hc.
    apply diskTrack_WriteRTP_keeps; [| |done].
    + apply writersAllOrNothing_view.
    + intros. by eapply initWriterOutcome_writersAllOrNothing.
  - apply noWriters_Close.
  - right. apply noWriters_Close.
Qed.

End ConnInvariant.

Lemma recording_opened :
  (diskConn_initWriter emptyWorld audioConn 0 0).2 = recording.
Proof. vm_compute. reflexivity. Qed.

Lemma connection_invariant_witness :
  allOrNothing recording
  ∧ allOrNothing
      (diskTrack_WriteRTP emptyWorld recording 0
         ["000"; "000"; "003"; "192"; "001"]%byte).2.
Proof.
  assert (Hc : allOrNothing audioConn).
  { right. split; [done|]. by repeat constructor. }
  destruct (connection_invariant emptyWorld audioConn) as (Hinit & _).
  pose proof (Hinit 0 0 Hc) as Hrec. rewrite recording_opened in Hrec.
  split; [exact Hrec|].
  destruct (connection_invariant emptyWorld recording) as (_ & Hwrite & _).
  by apply Hwrite.
Defined.

Lemma recording_initialized : initialized recording.
Proof.
  exists recordingFile,
    [{| Name := "Audio"; TrackNumber := 1; CodecID := "A_OPUS";
        TrackType := 2; Audio := Some (48000, 2); Video := None |}],
    [recordingWriter].
  by repeat split.
Qed.

(** The invariant as the specification states it does not survive
    [Close]: the connection keeps the reference to its file. *)
Lemma Close_keeps_the_file :
  allOrNothing recording
  ∧ ¬ allOrNothing (diskConn_Close 0 emptyWorld recording).2.
Proof.
  split; [left; apply recording_initialized|].
  intros [(file & entries & writers & Hf & He & Hm & Hw)|[Hf _]].
  - vm_compute in He. injection He as <-.
    vm_compute in Hm. injection Hm as <-.
    vm_compute in Hw. discriminate.
  - vm_compute in Hf. discriminate.
Qed.

(** * Key frames and their size *)

Section Keyframe.
Context `{Lib}.

Lemma WriteRTP_switch_keyframe w c i t kf s ts keyframe kf' w' c' :
  WriteRTP_switch w c i t kf s ts = (Go keyframe kf', w', c') →
  keyframe =
    if isMime (track_Codec (tr_remote t)) "video/vp8"
    then vp8Keyframe (Data s) else true.
Proof.
  unfold WriteRTP_switch. intros Hsw.
  destruct (isMime (track_Codec (tr_remote t)) "video/vp8").
  - destruct (length (Data s) <? 1)%nat; [done|].
    destruct (vp8Keyframe (Data s)).
    + destruct (diskTrack_initWriter w c t (Data s)) as [[[e|] w1] c1];
        [destruct (warn w1 c1 _)|]; by simplify_eq.
    + repeat case_match; by simplify_eq.
  - destruct (tr_writer t); [by simplify_eq|].
    destruct (negb (dc_hasVideo c)); [|by simplify_eq].
    destruct (diskConn_initWriter w c 0 0) as [[[e|] w1] c1];
      [destruct (warn w1 c1 _)|]; by simplify_eq.
Qed.

(** The trace of one round: the pop, events that are neither pops nor
    writes, and at most one write, of the payload of the sample and with
    the key frame flag of its classification. *)
Lemma WriteRTP_sample_trace w c i kf s r w' c' t :
  dc_tracks c !! i = Some t →
  WriteRTP_sample w c i kf s = (r, w', c') →
  ∃ evs wr,
    trace w' = trace w ++ EvPop (tr_remote t) s :: evs ++ wr ∧ silent evs
    ∧ (wr = []
       ∨ ∃ bw tm,
           wr = [EvWrite bw
                   (if isMime (track_Codec (tr_remote t)) "video/vp8"
                    then vp8Keyframe (Data s) else true)
                   tm (Data s)]).
Proof.
  intros Ht. unfold WriteRTP_sample. rewrite Ht. intros Hs.
  destruct (WriteRTP_switch _ c i t kf s _) as [[sw w1] c1] eqn:Hsw.
  pose proof Hsw as Hsw'.
  apply WriteRTP_switch_spec in Hsw' as ((evs & (Hg & _) & Hsil) & _).
  cbn in Hg. rewrite <- app_assoc in Hg. cbn in Hg.
  destruct sw as [|e|keyframe kf'].
  - simplify_eq. exists evs, []. rewrite app_nil_r. eauto.
  - simplify_eq. exists evs, []. rewrite app_nil_r. eauto.
  - apply WriteRTP_switch_keyframe in Hsw as ->.
    apply WriteRTP_write_spec in Hs
      as (_ & [[-> _]|(t1 & bw & tm & _ & _ & ->)]).
    + exists evs, []. rewrite app_nil_r. eauto.
    + exists evs, [EvWrite bw
                     (if isMime (track_Codec (tr_remote t)) "video/vp8"
                      then vp8Keyframe (Data s) else true) tm (Data s)].
      split; [|split; [done | right; by eexists _, _]].
      cbn. rewrite Hg. rewrite <- !app_assoc. done.
Qed.

(** C5: a VP8 sample is a key frame exactly when the low bit of its first
    byte is clear; the width and the height [initWriter] reads are the low
    14 bits and the bits 16 to 29 of the little-endian value of the bytes 6
    to 9; for a key frame of at least 10 bytes the switch on the codec
    hands these to [diskConn.initWriter]; and the flag of a write is the
    classification of the sample. *)
Theorem vp8_keyframe_size :
  (∀ data,
      vp8Keyframe data = negb (Z.testbit (byteAt data 0) 0)
      ∧ vp8Width data = headerWidth data
      ∧ vp8Height data = headerHeight data)
  ∧ (∀ w c i t kf s ts,
       isMime (track_Codec (tr_remote t)) "video/vp8" = true →
       (1 ≤ length (Data s))%nat →
       (vp8Keyframe (Data s) = false →
        ∃ kf', WriteRTP_switch w c i t kf s ts = (Go false kf', w, c))
       ∧ (vp8Keyframe (Data s) = true → (10 ≤ length (Data s))%nat →
          WriteRTP_switch w c i t kf s ts =
            match diskConn_initWriter w c (headerWidth (Data s))
                    (headerHeight (Data s)) with
            | (Some err, w1, c1) =>
                let '(w2, c2) :=
                  warn w1 c1 ("Write to disk " +:+ error_Error err) in
                (Fail err, w2, c2)
            | (None, w1, c1) =>
                (Go true kf, w1, alterTrack (set_lastKf ts) i c1)
            end))
  ∧ (∀ w c i t kf s r w' c' pre bw keyframe tm data post,
       dc_tracks c !! i = Some t →
       isMime (track_Codec (tr_remote t)) "video/vp8" = true →
       WriteRTP_sample w c i kf s = (r, w', c') →
       trace w' = trace w ++ pre ++ EvWrite bw keyframe tm data :: post →
       keyframe = negb (Z.testbit (byteAt (Data s) 0) 0)
       ∧ data = Data s).
Proof.
  split; [|split].
  - intros data.
    split; [apply vp8Keyframe_low_bit|].
    split; [apply vp8Width_header | apply vp8Height_header].
  - intros w c i t kf s ts Hvp8 Hlen. unfold WriteRTP_switch. rewrite Hvp8.
    destruct (Nat.ltb_spec (length (Data s)) 1) as [?|_]; [lia|]. split.
    + intros ->. repeat case_match; by eexists.
    + intros Hkf Hlen10. rewrite Hkf. unfold diskTrack_initWriter.
      rewrite Hvp8, Hkf.
      destruct (Nat.ltb_spec (length (Data s)) 10) as [?|_]; [lia|].
      cbn [negb]. by rewrite vp8Width_header, vp8Height_header.
  - intros w c i t kf s r w' c' pre bw keyframe tm data post Ht Hvp8 Hs Htr.
    destruct (WriteRTP_sample_trace _ _ _ _ _ _ _ _ _ Ht Hs)
      as (evs & wr & Htr' & Hsil & Hwr).
    rewrite Htr' in Htr. apply app_inv_head in Htr.
    rewrite Hvp8 in Hwr. rewrite <- vp8Keyframe_low_bit.
    assert (Hin : EvWrite bw keyframe tm data
                  ∈ EvPop (tr_remote t) s :: evs ++ wr).
    { rewrite Htr. apply elem_of_app. right. left. }
    apply elem_of_cons in Hin as [?|Hin]; [done|].
    apply elem_of_app in Hin as [Hin|Hin].
    + eapply Forall_forall in Hsil; [|done]. by destruct Hsil.
    + destruct Hwr as [->|(bw' & tm' & ->)]; [by apply elem_of_nil in Hin|].
      apply list_elem_of_singleton in Hin. by simplify_eq.
Qed.

End Keyframe.

Lemma vp8_keyframe_size_witness :
  vp8Keyframe keyframe640 = true
  ∧ headerWidth keyframe640 = 640 ∧ headerHeight keyframe640 = 480
  ∧ (diskConn_initWriter emptyWorld videoConn 640 480).1.1 = None
  ∧ ∃ w c,
      WriteRTP_switch emptyWorld videoConn 1 (newTrack vp8Track emptyBuilder)
        false {| Data := keyframe640; PacketTimestamp := 3000 |} 3000
      = (Go true false, w, c).
Proof.
  split; [reflexivity|]. split; [reflexivity|]. split; [reflexivity|].
  split; [reflexivity|].
  destruct (vp8_keyframe_size (H:=plainLib)) as (_ & Hsw & _).
  destruct (Hsw emptyWorld videoConn 1%nat (newTrack vp8Track emptyBuilder) false
              {| Data := keyframe640; PacketTimestamp := 3000 |} 3000)
    as (_ & Hkey); [reflexivity | cbn; lia |].
  rewrite Hkey; [| reflexivity | cbn; lia].
  assert (Hnone : (diskConn_initWriter emptyWorld videoConn
                     (headerWidth keyframe640)
                     (headerHeight keyframe640)).1.1 = None)
    by (vm_compute; reflexivity).
  cbn [Data] in *.
  destruct (diskConn_initWriter emptyWorld videoConn _ _)
    as [[[e|] w1] c1]; [discriminate | by eexists _, _].
Defined.

(** * The origin of a track and the rebased timestamps *)

Section Origin.
Context `{Lib}.

Lemma originIs_fmap k o c c' :
  tr_origin <$> dc_tracks c' = tr_origin <$> dc_tracks c →
  originIs k o c → originIs k o c'.
Proof.
  unfold originIs. intros Heq. by rewrite <- !list_lookup_fmap, Heq.
Qed.

Lemma initWriterOutcome_origin k o c width height r c' :
  initWriterOutcome c width height r c' → originIs k o c → originIs k o c'.
Proof.
  intros Hout. apply originIs_fmap.
  eapply initWriterOutcome_fmap; [|exact Hout]. done.
Qed.

Lemma WriteRTP_write_origin k o w c i keyframe kf s ts r w' c' :
  o ≠ 0 → WriteRTP_write w c i keyframe kf s ts = (r, w', c') →
  originIs k o c → originIs k o c'.
Proof.
  intros Ho. unfold WriteRTP_write, originIs. intros Hw Hk.
  destruct (dc_tracks c !! i) as [t|] eqn:Ht; [|by simplify_eq].
  destruct (tr_writer t); [|by simplify_eq].
  assert (Hc' : c' = alterTrack
            (set_origin (if tr_origin t =? 0 then markOrigin ts
                         else tr_origin t)) i c)
    by (repeat case_match; by simplify_eq).
  subst c'. cbn. destruct (decide (k = i)) as [->|Hne].
  - rewrite list_lookup_alter_eq, Ht. rewrite Ht in Hk. cbn in Hk |- *.
    simplify_eq. destruct (Z.eqb_spec (tr_origin t) 0); [done|done].
  - by rewrite list_lookup_alter_ne.
Qed.

Lemma WriteRTP_sample_origin k o w c i kf s r w' c' :
  o ≠ 0 → WriteRTP_sample w c i kf s = (r, w', c') →
  originIs k o c → originIs k o c'.
Proof.
  intros Ho. unfold WriteRTP_sample. intros Hs Hk.
  destruct (dc_tracks c !! i) as [t|]; [|by simplify_eq].
  destruct (WriteRTP_switch _ c i t kf s _) as [[sw w1] c1] eqn:Hsw.
  apply WriteRTP_switch_spec in Hsw as (_ & c0 & _ & Horig & Hc0).
  assert (Hk1 : originIs k o c1).
  { eapply originIs_fmap; [exact Horig|].
    destruct Hc0 as [->|[(_ & r0 & ?)|(_ & _ & r0 & ?)]];
      [done | by eapply initWriterOutcome_origin ..]. }
  destruct sw; simplify_eq; try done.
  by eapply WriteRTP_write_origin.
Qed.

Lemma diskTrack_WriteRTP_origin k o w c i packet :
  o ≠ 0 → originIs k o c → originIs k o (diskTrack_WriteRTP w c i packet).2.
Proof.
  intros Ho Hk. unfold diskTrack_WriteRTP.
  destruct (dc_tracks c !! i) as [t|]; [|done].
  destruct (tr_builder t) as [builder|]; [|done].
  destruct (clonePacket packet) as [p|]; [|done].
  destruct (WriteRTP_loop _ w c i false) as [[[r w1] c1] q] eqn:Hloop. cbn.
  eapply originIs_fmap; [cbn; by apply fmap_alter_same|].
  eapply (WriteRTP_loop_keeps (λ _ c, originIs k o c)); [|exact Hk|exact Hloop].
  intros. by eapply WriteRTP_sample_origin.
Qed.

(** What a round that reaches the write does, for a track whose clock has
    at least 1000 ticks a second. *)
Lemma WriteRTP_write_writes w c i keyframe kf s ts t bw :
  dc_tracks c !! i = Some t → tr_writer t = Some bw →
  1000 ≤ ClockRate (track_Codec (tr_remote t)) < 2 ^ 32 →
  let origin := if tr_origin t =? 0 then markOrigin ts else tr_origin t in
  let tm :=
    wrap32 (ts - wrap32 origin) / (ClockRate (track_Codec (tr_remote t)) / 1000) in
  ∃ r, WriteRTP_write w c i keyframe kf s ts =
         (r, emit (EvWrite bw keyframe tm (Data s)) w,
          alterTrack (set_origin origin) i c).
Proof.
  intros Ht Hbw Hrate origin tm. unfold WriteRTP_write. rewrite Ht, Hbw.
  fold origin. rewrite (wrap32_small (ClockRate _)) by lia. fold tm.
  assert (1 ≤ ClockRate (track_Codec (tr_remote t)) / 1000)
    by (apply Z.div_le_lower_bound; lia).
  destruct (Z.eqb_spec (ClockRate (track_Codec (tr_remote t)) / 1000) 0);
    [lia|].
  case_match; by eexists.
Qed.

(** C3: the first sample a track writes is written at time 0, and its
    timestamp with bit 32 set becomes the origin; a later sample whose
    timestamp is [delta] past the origin in [uint32] arithmetic is written
    at [delta / (ClockRate / 1000)], also when the timestamp has wrapped. *)
Theorem timestamps_rebased w c i t bw keyframe kf s :
  dc_tracks c !! i = Some t → tr_writer t = Some bw →
  1000 ≤ ClockRate (track_Codec (tr_remote t)) < 2 ^ 32 →
  let ts := wrap32 (PacketTimestamp s) in
  let rate := ClockRate (track_Codec (tr_remote t)) / 1000 in
  (tr_origin t = 0 →
   ∃ r c',
     WriteRTP_write w c i keyframe kf s ts =
       (r, emit (EvWrite bw keyframe 0 (Data s)) w, c')
     ∧ originIs i (markOrigin ts) c'
     ∧ markOrigin ts = ts + 2 ^ 32)
  ∧ (∀ ts0 delta,
       0 ≤ ts0 < 2 ^ 32 → 0 ≤ delta < 2 ^ 32 →
       tr_origin t = markOrigin ts0 → ts = wrap32 (ts0 + delta) →
       ∃ r c',
         WriteRTP_write w c i keyframe kf s ts =
           (r, emit (EvWrite bw keyframe (delta / rate) (Data s)) w, c')
         ∧ originIs i (markOrigin ts0) c').
Proof.
  intros Ht Hbw Hrate ts rate.
  pose proof (wrap32_range (PacketTimestamp s)) as Hts. fold ts in Hts.
  destruct (WriteRTP_write_writes w c i keyframe kf s ts t bw Ht Hbw Hrate)
    as (r & Hw).
  split.
  - intros Ho. rewrite Ho in Hw. cbn [Z.eqb] in Hw.
    rewrite markOrigin_low in Hw by done.
    replace (ts - ts) with 0 in Hw by lia.
    change (wrap32 0) with 0 in Hw.
    assert (1 ≤ ClockRate (track_Codec (tr_remote t)) / 1000)
      by (apply Z.div_le_lower_bound; lia).
    rewrite Z.div_0_l in Hw by lia.
    exists r, (alterTrack (set_origin (markOrigin ts)) i c).
    split; [done|]. split; [|by apply markOrigin_add].
    unfold originIs. cbn. by rewrite list_lookup_alter_eq, Ht.
  - intros ts0 delta Hts0 Hdelta Ho Hlater.
    pose proof (markOrigin_nonzero ts0 Hts0) as Hnz.
    rewrite Ho in Hw.
    destruct (Z.eqb_spec (markOrigin ts0) 0) as [?|_]; [done|].
    rewrite markOrigin_low in Hw by done.
    assert (Hd : wrap32 (ts - ts0) = delta).
    { rewrite Hlater. rewrite <- (wrap32_small ts0) at 2 by done.
      by apply wrap32_rebase. }
    rewrite Hd in Hw.
    exists r, (alterTrack (set_origin (markOrigin ts0)) i c).
    split; [done|]. unfold originIs. cbn.
    by rewrite list_lookup_alter_eq, Ht.
Qed.

Lemma diskConn_initWriter_origin k o w c width height :
  originIs k o c → originIs k o (diskConn_initWriter w c width height).2.
Proof.
  destruct (diskConn_initWriter_spec w c width height) as (_ & _ & _ & Hout).
  by eapply initWriterOutcome_origin.
Qed.

Lemma diskConn_Close_origin k o p w c :
  originIs k o c → originIs k o (diskConn_Close p w c).2.
Proof.
  rewrite diskConn_Close_conn. apply originIs_fmap. cbn.
  by apply unset_writers_fmap.
Qed.

(** C10: the origin a write records is never zero, whatever the timestamp
    (bit 32 is set and the low 32 bits are the timestamp), so a write leaves
    a nonzero origin, and no operation of the connection changes an origin
    that is not zero: every later sample is rebased against the same
    anchor. *)
Theorem origin_recorded_once :
  (∀ z, let ts := wrap32 z in
        markOrigin ts ≠ 0 ∧ Z.testbit (markOrigin ts) 32 = true
        ∧ wrap32 (markOrigin ts) = ts)
  ∧ markOrigin 0 = 2 ^ 32
  ∧ (∀ w c i keyframe kf s r w' c',
       WriteRTP_write w c i keyframe kf s (wrap32 (PacketTimestamp s))
         = (r, w', c') →
       trace w' ≠ trace w → ∃ o, o ≠ 0 ∧ originIs i o c')
  ∧ (∀ w c k o,
       o ≠ 0 → originIs k o c →
       (∀ i packet, originIs k o (diskTrack_WriteRTP w c i packet).2)
       ∧ (∀ width height,
            originIs k o (diskConn_initWriter w c width height).2)
       ∧ (∀ p, originIs k o (diskConn_Close p w c).2)).
Proof.
  split; [|split; [done|split]].
  - intros z ts. pose proof (wrap32_range z) as Hts. fold ts in Hts.
    split; [by apply markOrigin_nonzero|].
    split; [by apply markOrigin_valid | by apply markOrigin_low].
  - intros w c i keyframe kf s r w' c'. unfold WriteRTP_write. intros Hw Htr.
    destruct (dc_tracks c !! i) as [t|] eqn:Ht; [|by simplify_eq].
    destruct (tr_writer t); [|by simplify_eq].
    exists (if tr_origin t =? 0 then markOrigin (wrap32 (PacketTimestamp s))
            else tr_origin t).
    split.
    + destruct (Z.eqb_spec (tr_origin t) 0); [|done].
      apply markOrigin_nonzero, wrap32_range.
    + assert (c' = alterTrack
                (set_origin (if tr_origin t =? 0
                             then markOrigin (wrap32 (PacketTimestamp s))
                             else tr_origin t)) i c) as ->
        by (repeat case_match; by simplify_eq).
      unfold originIs. cbn. by rewrite list_lookup_alter_eq, Ht.
  - intros w c k o Ho Hk. split; [|split].
    + intros. by apply diskTrack_WriteRTP_origin.
    + intros. by apply diskConn_initWriter_origin.
    + intros. by apply diskConn_Close_origin.
Qed.

End Origin.

Lemma timestamps_rebased_witness :
  ∃ r c',
    WriteRTP_write emptyWorld anchored 0 true false
      {| Data := ["001"%byte]; PacketTimestamp := 4800 |} 4800
    = (r, emit (EvWrite recordingWriter true 102 ["001"%byte]) emptyWorld, c').
Proof.
  destruct (timestamps_rebased emptyWorld anchored 0 anchoredTrack
              recordingWriter true false
              {| Data := ["001"%byte]; PacketTimestamp := 4800 |})
    as (_ & Hlater); [reflexivity | reflexivity | cbn; lia |].
  destruct (Hlater 4294967196 4900) as (r & c' & Hw & _);
    [lia | lia | reflexivity | reflexivity |].
  by exists r, c'.
Defined.

Lemma origin_recorded_once_witness :
  originIs 0 (markOrigin 4294967196) (diskConn_Close 0 emptyWorld anchored).2.
Proof.
  destruct (origin_recorded_once (H:=plainLib)) as (_ & _ & _ & Hkeep).
  destruct (Hkeep emptyWorld anchored 0%nat (markOrigin 4294967196))
    as (_ & _ & Hclose); [done | reflexivity |].
  apply Hclose.
Defined.

(** * Construction ([newDiskConn]) *)

Section NewDiskConn.
Context `{Lib}.

Lemma isVideo_not_opus remote :
  isVideo remote = true → isMime (track_Codec remote) "audio/opus" = false.
Proof.
  unfold isVideo, isMime. intros Hv%String.eqb_eq.
  apply String.eqb_neq. by rewrite Hv.
Qed.

Lemma videoRemotes_cons remote rest :
  videoRemotes (remote :: rest) =
    ((if isVideo remote then 1 else 0) + videoRemotes rest)%nat.
Proof.
  unfold videoRemotes. rewrite filter_cons.
  destruct (isVideo remote); by case_decide.
Qed.

Lemma videoTracks_addTrack p track w conn :
  videoTracks (addTrack p track w conn).2 =
    (videoTracks conn + if isVideo (tr_remote track) then 1 else 0)%nat.
Proof.
  unfold videoTracks, addTrack. cbn. rewrite filter_app, length_app.
  rewrite filter_cons, filter_nil.
  destruct (isVideo (tr_remote track)); by case_decide.
Qed.

(** One round of the loop. *)
Lemma newDiskConn_loop_cons p remote rest w conn :
  newDiskConn_loop p (remote :: rest) w conn =
    if isMime (track_Codec remote) "audio/opus" then
      let st :=
        addTrack p
          (newTrack remote
             (samplebuilder_New 16 OpusPacket
                (ClockRate (track_Codec remote)))) w conn in
      newDiskConn_loop p rest st.1 st.2
    else if isMime (track_Codec remote) "video/vp8" then
      if dc_hasVideo conn then (Some ErrMultipleVideo, w, conn)
      else
        let st :=
          addTrack p (videoTrack remote) w (set_hasVideo true conn) in
        newDiskConn_loop p rest st.1 st.2
    else
      newDiskConn_loop p rest
        (emit (EvWallOps (dc_client conn)
                 ("Cannot record codec " +:+ MimeType (track_Codec remote)))
           w) conn.
Proof. reflexivity. Qed.

(** With a video track already there, or with two VP8 tracks to come, the
    loop ends with the error. *)
Lemma newDiskConn_loop_multiple p remotes : ∀ w conn,
  (2 ≤ (if dc_hasVideo conn then 1 else 0) + videoRemotes remotes)%nat →
  (newDiskConn_loop p remotes w conn).1.1 = Some ErrMultipleVideo.
Proof.
  induction remotes as [|remote rest IH]; intros w conn Hn.
  - unfold videoRemotes in Hn. cbn in Hn. destruct (dc_hasVideo conn); lia.
  - rewrite videoRemotes_cons in Hn. rewrite newDiskConn_loop_cons.
    destruct (isVideo remote) eqn:Hv.
    + rewrite (isVideo_not_opus _ Hv). unfold isVideo in Hv. rewrite Hv.
      destruct (dc_hasVideo conn) eqn:Hhv; [done|].
      apply IH. cbn. lia.
    + unfold isVideo in Hv. rewrite Hv.
      destruct (isMime (track_Codec remote) "audio/opus"); apply IH;
        cbn; destruct (dc_hasVideo conn); lia.
Qed.

(** The loop keeps the number of video tracks in step with [hasVideo]. *)
Lemma newDiskConn_loop_video p remotes : ∀ w conn,
  videoTracks conn = (if dc_hasVideo conn then 1 else 0)%nat →
  videoTracks (newDiskConn_loop p remotes w conn).2 =
    (if dc_hasVideo (newDiskConn_loop p remotes w conn).2 then 1 else 0)%nat.
Proof.
  induction remotes as [|remote rest IH]; intros w conn Hn; [done|].
  rewrite newDiskConn_loop_cons.
  destruct (isMime (track_Codec remote) "audio/opus") eqn:Ho.
  - apply IH. rewrite videoTracks_addTrack. cbn [tr_remote newTrack].
    unfold isVideo, isMime in *. apply String.eqb_eq in Ho.
    rewrite Ho. cbn. lia.
  - destruct (isMime (track_Codec remote) "video/vp8") eqn:Hv.
    + destruct (dc_hasVideo conn) eqn:Hhv; [cbn; by rewrite Hhv|].
      apply IH. rewrite videoTracks_addTrack.
      unfold isVideo, videoTrack. cbn [tr_remote newTrack]. rewrite Hv.
      unfold videoTracks in *. cbn in *. lia.
    + by apply IH.
Qed.

(** The loop only appends tracks and only registers consumers. *)
Lemma newDiskConn_loop_grows p remotes : ∀ w conn,
  dc_tracks conn `prefix_of` dc_tracks (newDiskConn_loop p remotes w conn).2
  ∧ track_locals w ⊆ track_locals (newDiskConn_loop p remotes w conn).1.2
  ∧ heap (newDiskConn_loop p remotes w conn).1.2 = heap w.
Proof.
  induction remotes as [|remote rest IH]; intros w conn; [done|].
  rewrite newDiskConn_loop_cons.
  assert (Hadd : ∀ track conn0,
    dc_tracks conn0 = dc_tracks conn →
    dc_tracks conn `prefix_of`
      dc_tracks (newDiskConn_loop p rest (addTrack p track w conn0).1
                   (addTrack p track w conn0).2).2
    ∧ track_locals w ⊆
        track_locals (newDiskConn_loop p rest (addTrack p track w conn0).1
                        (addTrack p track w conn0).2).1.2
    ∧ heap (newDiskConn_loop p rest (addTrack p track w conn0).1
              (addTrack p track w conn0).2).1.2 = heap w).
  { intros track conn0 Hts.
    destruct (IH (addTrack p track w conn0).1 (addTrack p track w conn0).2)
      as (Hp & Hl & Hh).
    split; [|split; [|done]].
    - etrans; [|exact Hp]. cbn. rewrite Hts. by apply prefix_app_r.
    - etrans; [|exact Hl]. cbn. apply union_subseteq_r. }
  destruct (isMime (track_Codec remote) "audio/opus"); [by apply Hadd|].
  destruct (isMime (track_Codec remote) "video/vp8").
  - destruct (dc_hasVideo conn); [done | by apply Hadd].
  - match goal with
    | |- context [newDiskConn_loop p rest ?w0 conn] =>
        destruct (IH w0 conn) as (Hp & Hl & Hh)
    end.
    done.
Qed.

(** Past remotes that are not VP8 the loop goes on, without a video
    track. *)
Lemma newDiskConn_loop_app p pre : ∀ rest w conn,
  Forall (λ r, isVideo r = false) pre →
  ∃ w1 conn1,
    newDiskConn_loop p (pre ++ rest) w conn =
      newDiskConn_loop p rest w1 conn1
    ∧ dc_hasVideo conn1 = dc_hasVideo conn
    ∧ dc_tracks conn `prefix_of` dc_tracks conn1
    ∧ track_locals w ⊆ track_locals w1.
Proof.
  induction pre as [|remote pre IH]; intros rest w conn Hpre.
  - by exists w, conn.
  - apply Forall_cons in Hpre as [Hv Hpre].
    rewrite <- app_comm_cons, newDiskConn_loop_cons.
    unfold isVideo in Hv. rewrite Hv.
    destruct (isMime (track_Codec remote) "audio/opus").
    + cbv zeta.
      match goal with
      | |- context [newDiskConn_loop p (pre ++ rest) ?w0 ?c0] =>
          destruct (IH rest w0 c0 Hpre) as (w1 & conn1 & Heq & Hhv & Hp & Hl)
      end.
      exists w1, conn1. split; [done|]. split; [done|]. split.
      * etrans; [|exact Hp]. cbn. by apply prefix_app_r.
      * etrans; [|exact Hl]. cbn. apply union_subseteq_r.
    + match goal with
      | |- context [newDiskConn_loop p (pre ++ rest) ?w0 ?c0] =>
          destruct (IH rest w0 c0 Hpre) as (w1 & conn1 & Heq & Hhv & Hp & Hl)
      end.
      by exists w1, conn1.
Qed.

Lemma newDiskConn_one_video_aux w client directory label up remotes :
  (2 ≤ videoRemotes remotes)%nat →
  (newDiskConn w client directory label up remotes).1 = inl ErrMultipleVideo.
Proof.
  intros Hn. unfold newDiskConn.
  set (conn0 := {| dc_client := client; dc_directory := directory;
                   dc_label := label; dc_hasVideo := false; dc_file := None;
                   dc_remote := up; dc_tracks := []; dc_width := 0;
                   dc_height := 0; dc_lastWarning := 0 |}).
  pose proof (newDiskConn_loop_multiple (fresh (dom (heap w))) remotes w
                conn0 Hn) as Hmult.
  destruct (newDiskConn_loop _ remotes w conn0) as [[err w1] conn1].
  cbn in Hmult. by subst err.
Qed.

(** C7: with two or more VP8 tracks [newDiskConn] fails with "multiple
    video tracks not supported"; the track built for the first of them is
    still a track of the connection object, with its builder, and is still
    registered with its remote; and whatever the tracks, the connection
    never has more than one video track. *)
Theorem newDiskConn_one_video w client directory label up remotes :
  let p := fresh (dom (heap w)) in
  let res := newDiskConn w client directory label up remotes in
  (∃ conn, heap res.2 !! p = Some conn ∧ (videoTracks conn ≤ 1)%nat)
  ∧ ((2 ≤ videoRemotes remotes)%nat →
     res.1 = inl ErrMultipleVideo
     ∧ ∀ pre remote post,
         remotes = pre ++ remote :: post →
         Forall (λ r, isVideo r = false) pre → isVideo remote = true →
         ∃ conn k,
           heap res.2 !! p = Some conn
           ∧ dc_tracks conn !! k = Some (videoTrack remote)
           ∧ (p, k) ∈ track_locals res.2).
Proof.
  intros p res. subst res. unfold newDiskConn. fold p.
  set (conn0 := {| dc_client := client; dc_directory := directory;
                   dc_label := label; dc_hasVideo := false; dc_file := None;
                   dc_remote := up; dc_tracks := []; dc_width := 0;
                   dc_height := 0; dc_lastWarning := 0 |}).
  pose proof (newDiskConn_loop_video p remotes w conn0 eq_refl) as Hvideo.
  pose proof (newDiskConn_loop_multiple p remotes w conn0) as Hmult.
  split.
  - destruct (newDiskConn_loop p remotes w conn0) as [[err w1] conn1].
    cbn in Hvideo. exists conn1. split.
    + destruct err; [|destruct (up_AddLocal up)]; cbn;
        by rewrite lookup_insert_eq.
    + rewrite Hvideo. destruct (dc_hasVideo conn1); lia.
  - intros Hn. specialize (Hmult Hn). split.
    + destruct (newDiskConn_loop p remotes w conn0) as [[err w1] conn1].
      cbn in Hmult. by subst err.
    + intros pre remote post -> Hpre Hv.
      destruct (newDiskConn_loop_app p pre (remote :: post) w conn0 Hpre)
        as (w1 & conn1 & Heq & Hhv & _ & _).
      rewrite Heq in Hmult |- *. clear Heq.
      rewrite newDiskConn_loop_cons in Hmult |- *.
      rewrite (isVideo_not_opus _ Hv) in Hmult |- *. unfold isVideo in Hv.
      rewrite Hv, Hhv in Hmult |- *. cbn [dc_hasVideo conn0] in Hmult |- *.
      cbv zeta in Hmult |- *.
      set (st := addTrack p (videoTrack remote) w1 (set_hasVideo true conn1))
        in *.
      destruct (newDiskConn_loop_grows p post st.1 st.2) as (Hp & Hl & _).
      destruct (newDiskConn_loop p post st.1 st.2) as [[err w2] conn2].
      cbn in Hmult, Hp, Hl. subst err. cbn.
      exists conn2, (length (dc_tracks conn1)).
      split; [by rewrite lookup_insert_eq|]. split.
      * eapply prefix_lookup_Some; [|exact Hp]. subst st. cbn.
        by rewrite lookup_app_r, Nat.sub_diag.
      * apply Hl. subst st. cbn. apply elem_of_union_l.
        by apply elem_of_singleton.
Qed.

End NewDiskConn.

Lemma newDiskConn_one_video_witness :
  (newDiskConn emptyWorld room "rec/room" "" upstream
     [opusTrack; vp8Track; vp8Track]).1 = inl ErrMultipleVideo
  ∧ ∃ conn k,
      heap (newDiskConn emptyWorld room "rec/room" "" upstream
              [opusTrack; vp8Track; vp8Track]).2
        !! fresh (dom (heap emptyWorld)) = Some conn
      ∧ dc_tracks conn !! k = Some (videoTrack vp8Track)
      ∧ (fresh (dom (heap emptyWorld)), k)
        ∈ track_locals
            (newDiskConn emptyWorld room "rec/room" "" upstream
               [opusTrack; vp8Track; vp8Track]).2.
Proof.
  destruct (newDiskConn_one_video emptyWorld room "rec/room" "" upstream
              [opusTrack; vp8Track; vp8Track]) as (_ & Hmany).
  destruct Hmany as (Herr & Hfirst);
    [change (2 ≤ 2)%nat; lia|].
  split; [exact Herr|].
  apply (Hfirst [opusTrack] vp8Track [vp8Track]); [done| |done].
  by repeat constructor.
Defined.

(** * No write before the first key frame *)

Section Gate.
Context `{Lib}.

Lemma gated_armed evs : gated true evs = true.
Proof.
  induction evs as [|e evs IH]; [done|]. cbn. rewrite IH. by destruct (isWrite e).
Qed.

Lemma gated_app armed evs evs' :
  gated armed (evs ++ evs') =
    gated armed evs && gated (armed || existsb isParsedPop evs) evs'.
Proof.
  revert armed. induction evs as [|e evs IH]; intros armed.
  - cbn. by rewrite orb_false_r.
  - cbn. rewrite IH, orb_assoc. by rewrite andb_assoc.
Qed.

Lemma silent_gated armed evs :
  silent evs → gated armed evs = true ∧ existsb isParsedPop evs = false.
Proof.
  revert armed. induction evs as [|e evs IH]; intros armed Hs; [done|].
  apply Forall_cons in Hs as [[Hw Hp] Hs]. cbn. rewrite Hw.
  assert (isParsedPop e = false) as -> by (by destruct e).
  rewrite orb_false_r. cbn. by apply IH.
Qed.

(** What [gated] says, read on the list. *)
Lemma gated_before armed evs pre bw keyframe tm data post :
  gated armed evs = true → evs = pre ++ EvWrite bw keyframe tm data :: post →
  armed = true
  ∨ ∃ remote s, EvPop remote s ∈ pre ∧ parsedKeyframe remote s = true.
Proof.
  revert armed evs. induction pre as [|e pre IH]; intros armed evs Hg ->.
  - cbn in Hg. left. by destruct armed.
  - cbn in Hg. apply andb_prop in Hg as [_ Hg].
    destruct (IH _ _ Hg eq_refl) as [Ha|(remote & s & Hin & Hk)].
    + apply orb_prop in Ha as [->|He]; [by left|]. right.
      destruct e; try done. eexists _, _. split; [left|done].
    + right. exists remote, s. split; [by right | done].
Qed.

Lemma gate_trans c1 e1 c2 e2 c3 :
  gate c1 e1 c2 → gate c2 e2 c3 → gate c1 (e1 ++ e2) c3.
Proof.
  intros [_ H1] [Hv H2]. split; [done|]. intros Hn.
  destruct (H1 Hn) as [Hg1 Hn2]. rewrite gated_app, Hg1, existsb_app. cbn.
  destruct (existsb isParsedPop e1).
  - split; [apply gated_armed | done].
  - destruct (H2 (Hn2 eq_refl)) as [Hg2 Hn3]. by split.
Qed.

Lemma gate_silent c evs c' :
  dc_hasVideo c' = true → silent evs → (noWriters c → noWriters c') →
  gate c evs c'.
Proof.
  intros Hv Hs Hn. split; [done|]. intros Hc.
  destruct (silent_gated false evs Hs) as [Hg _]. split; [done|]. auto.
Qed.

Lemma WriteRTP_sample_gate w c i kf s r w' c' :
  dc_hasVideo c = true → WriteRTP_sample w c i kf s = (r, w', c') →
  ∃ evs, trace w' = trace w ++ evs ∧ gate c evs c'.
Proof.
  intros Hv. unfold WriteRTP_sample. intros Hs.
  destruct (dc_tracks c !! i) as [t|] eqn:Ht.
  2: { simplify_eq. exists []. rewrite app_nil_r. split; [done|].
       by apply gate_silent; [|apply silent_nil|]. }
  destruct (WriteRTP_switch _ c i t kf s _) as [[sw w1] c1] eqn:Hsw.
  apply WriteRTP_switch_spec in Hsw
    as ((evs & (Hg & _) & Hsil) & c0 & Hview & _ & Hc0).
  cbn in Hg. rewrite <- app_assoc in Hg. cbn in Hg.
  assert (Hv1 : dc_hasVideo c1 = true).
  { destruct Hview as (_ & _ & _ & -> & _).
    destruct Hc0 as [->|[(_ & r0 & Hout)|(_ & Hno & _)]];
      [done | | congruence].
    by rewrite (initWriterOutcome_hasVideo _ _ _ _ _ Hout). }
  (* after the switch *)
  assert (Hsw' : gate c (EvPop (tr_remote t) s :: evs) c1).
  { split; [done|]. intros Hn. cbn [gated isWrite andb orb existsb isParsedPop].
    destruct (parsedKeyframe (tr_remote t) s) eqn:Hpk.
    - split; [apply gated_armed | done].
    - destruct (silent_gated false evs Hsil) as [-> ->]. split; [done|].
      intros _. eapply noWriters_view; [exact Hview|].
      destruct Hc0 as [->|[(Hpk' & _)|(_ & Hno & _)]]; [done | |]; congruence. }
  destruct sw as [|e|keyframe kf'].
  - simplify_eq. by eexists.
  - simplify_eq. by eexists.
  - apply WriteRTP_write_spec in Hs
      as (Hview2 & [[-> Hsame]|(t1 & bw & tm & Ht1 & Hbw & ->)]).
    + exists (EvPop (tr_remote t) s :: evs). split; [done|].
      rewrite <- (app_nil_r (_ :: evs)). eapply gate_trans; [exact Hsw'|].
      apply gate_silent; [|apply silent_nil|].
      * destruct Hview2 as (_ & _ & _ & -> & _). done.
      * by eapply noWriters_view.
    + exists ((EvPop (tr_remote t) s :: evs)
              ++ [EvWrite bw keyframe tm (Data s)]).
      split; [cbn; rewrite Hg; by rewrite <- app_assoc|].
      eapply gate_trans; [exact Hsw'|]. split.
      * destruct Hview2 as (_ & _ & _ & -> & _). done.
      * intros Hn. eapply Forall_lookup_1 in Hn; [|exact Ht1].
        cbn in Hn. congruence.
Qed.

Lemma WriteRTP_loop_gate i q : ∀ w c kf r w' c' q',
  dc_hasVideo c = true → WriteRTP_loop q w c i kf = (r, w', c', q') →
  ∃ evs, trace w' = trace w ++ evs ∧ gate c evs c'.
Proof.
  induction q as [|s q IH]; intros w c kf r w' c' q' Hv Hl.
  - cbn in Hl. simplify_eq. exists []. rewrite app_nil_r. split; [done|].
    by apply gate_silent; [|apply silent_nil|].
  - cbn [WriteRTP_loop] in Hl.
    destruct (WriteRTP_sample w c i kf s) as [[r1 w1] c1] eqn:Hs.
    apply WriteRTP_sample_gate in Hs as (e1 & Ht1 & Hg1); [|done].
    destruct r1 as [kf1| |]; simplify_eq; try by eexists.
    apply IH in Hl as (e2 & Ht2 & Hg2); [|by destruct Hg1].
    exists (e1 ++ e2). split; [by rewrite Ht2, Ht1, app_assoc|].
    by eapply gate_trans.
Qed.

Lemma diskTrack_WriteRTP_gate w c i packet :
  dc_hasVideo c = true →
  ∃ evs,
    trace (diskTrack_WriteRTP w c i packet).1.2 = trace w ++ evs
    ∧ gate c evs (diskTrack_WriteRTP w c i packet).2.
Proof.
  intros Hv.
  assert (Hnone : ∃ evs, trace w = trace w ++ evs ∧ gate c evs c).
  { exists []. rewrite app_nil_r. split; [done|].
    by apply gate_silent; [|apply silent_nil|]. }
  unfold diskTrack_WriteRTP.
  destruct (dc_tracks c !! i) as [t|]; [|done].
  destruct (tr_builder t) as [builder|]; [|done].
  destruct (clonePacket packet) as [pk|]; [|done].
  destruct (WriteRTP_loop _ w c i false) as [[[r w1] c1] q] eqn:Hloop. cbn.
  apply WriteRTP_loop_gate in Hloop as (evs & Ht & Hg); [|done].
  exists evs. split; [done|].
  rewrite <- (app_nil_r evs). eapply gate_trans; [exact Hg|].
  apply gate_silent; [by destruct Hg | apply silent_nil |].
  apply noWriters_view, sameView_alterTrack; by intros [].
Qed.

Lemma closeWriters_trace ts : ∀ w,
  ∃ evs, trace (closeWriters w ts).1 = trace w ++ evs ∧ silent evs.
Proof.
  intros w. destruct (closeWriters_grows ts w) as (evs & (Ht & _) & Hs).
  by exists evs.
Qed.

Lemma diskConn_Close_trace p w c :
  ∃ evs, trace (diskConn_Close p w c).1 = trace w ++ evs ∧ silent evs.
Proof.
  unfold diskConn_Close.
  destruct (closeWriters_trace (dc_tracks c)
              (set_conn_locals (conn_locals w ∖ {[p]}) w)) as (evs & Ht & Hs).
  destruct (closeWriters _ (dc_tracks c)) as [w1 ts]. cbn in *. by exists evs.
Qed.

Lemma act_gate p a w c :
  dc_hasVideo c = true →
  ∃ evs, trace (act p a w c).1 = trace w ++ evs ∧ gate c evs (act p a w c).2.
Proof.
  intros Hv. destruct a as [i packet| |files t]; cbn [act].
  - pose proof (diskTrack_WriteRTP_gate w c i packet Hv) as Hg.
    by destruct (diskTrack_WriteRTP w c i packet) as [[r w1] c1].
  - destruct (diskConn_Close_trace p w c) as (evs & Ht & Hs).
    exists evs. split; [done|]. apply gate_silent; [|done|].
    + by rewrite diskConn_Close_conn.
    + intros _. apply noWriters_Close.
  - exists []. cbn. rewrite app_nil_r. split; [done|].
    by apply gate_silent; [|apply silent_nil|].
Qed.

Lemma runConn_gate p acts : ∀ w c,
  dc_hasVideo c = true →
  ∃ evs,
    trace (runConn p acts w c).1 = trace w ++ evs
    ∧ gate c evs (runConn p acts w c).2.
Proof.
  induction acts as [|a acts IH]; intros w c Hv.
  - exists []. cbn. rewrite app_nil_r. split; [done|].
    by apply gate_silent; [|apply silent_nil|].
  - cbn [runConn]. destruct (act_gate p a w c Hv) as (e1 & Ht1 & Hg1).
    destruct (act p a w c) as [w1 c1]. cbn in Ht1, Hg1.
    destruct (IH w1 c1) as (e2 & Ht2 & Hg2); [by destruct Hg1|].
    exists (e1 ++ e2). split; [by rewrite Ht2, Ht1, app_assoc|].
    by eapply gate_trans.
Qed.

(** On a connection with a video track and no writer yet, whatever packets
    arrive on whatever track, no sample is handed to a block writer before
    a sample of a VP8 track has been popped that is a key frame of at least
    10 bytes. *)
Theorem no_write_before_keyframe p acts w c pre bw keyframe tm data post :
  dc_hasVideo c = true → noWriters c →
  trace (runConn p acts w c).1
    = trace w ++ pre ++ EvWrite bw keyframe tm data :: post →
  ∃ remote s,
    EvPop remote s ∈ pre
    ∧ isVideo remote = true ∧ vp8Keyframe (Data s) = true
    ∧ (10 ≤ length (Data s))%nat.
Proof.
  intros Hv Hn Htr.
  destruct (runConn_gate p acts w c Hv) as (evs & Ht & _ & Hg).
  destruct (Hg Hn) as [Hgated _].
  rewrite Ht in Htr. apply app_inv_head in Htr.
  destruct (gated_before _ _ _ _ _ _ _ _ Hgated Htr)
    as [?|(remote & s & Hin & Hpk)]; [done|].
  exists remote, s. split; [done|].
  unfold parsedKeyframe in Hpk.
  apply andb_prop in Hpk as [Hpk Hlen]. apply andb_prop in Hpk as [Hvid Hkf].
  split; [done|]. split; [done|]. by apply Nat.leb_le.
Qed.

End Gate.

Lemma no_write_before_keyframe_witness :
  ∃ remote s,
    EvPop remote s ∈ take 3 sessionTrace
    ∧ isVideo remote = true ∧ vp8Keyframe (Data s) = true
    ∧ (10 ≤ length (Data s))%nat.
Proof.
  apply (no_write_before_keyframe 0 session emptyWorld videoConn
           (take 3 sessionTrace) videoWriter true 0 keyframe640
           (drop 4 sessionTrace)).
  - reflexivity.
  - by repeat constructor.
  - vm_compute. reflexivity.
Defined.

(** * Closing ([diskConn.Close], [Client.Close], [Client.Kick]) *)

Section Closing.
Context `{Lib}.

Lemma elem_of_delTrackLocals (q k p n : nat) (s : gset (nat * nat)) :
  (q, k) ∈ delTrackLocals p n s ↔ (q, k) ∈ s ∧ ¬ (q = p ∧ (k < n)%nat).
Proof.
  unfold delTrackLocals.
  assert (Hgen : ∀ m,
    (q, k) ∈ foldr (λ i s0, s0 ∖ {[(p, i)]}) s (seq m n)
    ↔ (q, k) ∈ s ∧ ¬ (q = p ∧ (m ≤ k < m + n)%nat)).
  { induction n as [|n IH]; intros m; cbn.
    - split; [intros ?; split; [done | lia] | by intros [? _]].
    - rewrite elem_of_difference, IH, elem_of_singleton. split.
      + intros [[Hs Hn] Hne]. split; [done|]. intros [-> Hk].
        destruct (decide (k = m)) as [->|]; [done|]. apply Hn. split; [done|lia].
      + intros [Hs Hn]. split; [split; [done|]|].
        * intros [-> Hk]. apply Hn. split; [done | lia].
        * intros [= -> ->]. apply Hn. split; [done | lia]. }
  rewrite Hgen. split; intros [Hs Hn]; (split; [done|]);
    intros [-> Hk]; apply Hn; (split; [done | lia]).
Qed.

Lemma closeWriters_world ts : ∀ w,
  fs (closeWriters w ts).1 = fs w
  ∧ heap (closeWriters w ts).1 = heap w
  ∧ conn_locals (closeWriters w ts).1 = conn_locals w
  ∧ track_locals (closeWriters w ts).1 = track_locals w.
Proof.
  induction ts as [|t ts IH]; intros w; [done|].
  cbn [closeWriters]. destruct (tr_writer t) as [bw|].
  - specialize (IH (emit (EvWriterClose bw) w)).
    by destruct (closeWriters _ ts).
  - specialize (IH w). by destruct (closeWriters _ ts).
Qed.

Lemma diskConn_Close_world p w c :
  fs (diskConn_Close p w c).1 = fs w
  ∧ heap (diskConn_Close p w c).1 = heap w
  ∧ conn_locals (diskConn_Close p w c).1 = conn_locals w ∖ {[p]}
  ∧ track_locals (diskConn_Close p w c).1 =
      delTrackLocals p (length (dc_tracks c)) (track_locals w).
Proof.
  unfold diskConn_Close.
  pose proof (closeWriters_world (dc_tracks c)
                (set_conn_locals (conn_locals w ∖ {[p]}) w))
    as (Hf & Hh & Hc & Ht).
  pose proof (closeWriters_tracks (dc_tracks c)
                (set_conn_locals (conn_locals w ∖ {[p]}) w)) as Hts.
  destruct (closeWriters _ (dc_tracks c)) as [w1 ts]. cbn in *.
  subst ts. rewrite length_fmap. by rewrite Ht.
Qed.

Lemma Close_at_closes p w : closedAt p (Close_at p w).
Proof.
  unfold Close_at, closedAt. destruct (heap w !! p) as [c|] eqn:Hp.
  - pose proof (diskConn_Close_world p w c) as (_ & _ & Hc & Ht).
    pose proof (noWriters_Close p w c) as Hn.
    pose proof (diskConn_Close_conn p w c) as Hconn.
    destruct (diskConn_Close p w c) as [w1 c1]. cbn in *.
    intros c0. rewrite lookup_insert_eq. intros [= <-].
    split; [done|]. split; [rewrite Hc; set_solver|].
    intros k Hk. rewrite Ht, elem_of_delTrackLocals. intros [_ Hno].
    apply Hno. split; [done|]. rewrite Hconn in Hk. cbn in Hk.
    by rewrite length_fmap in Hk.
  - intros c0 Hc0. congruence.
Qed.

Lemma Close_at_keeps_closed p q w : closedAt q w → closedAt q (Close_at p w).
Proof.
  intros Hq. destruct (decide (q = p)) as [->|Hne]; [apply Close_at_closes|].
  unfold Close_at, closedAt. destruct (heap w !! p) as [c|] eqn:Hp; [|done].
  pose proof (diskConn_Close_world p w c) as (_ & Hh & Hc & Ht).
  destruct (diskConn_Close p w c) as [w1 c1]. cbn in *.
  intros c0. rewrite lookup_insert_ne by done. rewrite Hh. intros Hc0.
  destruct (Hq c0 Hc0) as (Hn & Hcl & Htl).
  split; [done|]. split; [rewrite Hc; set_solver|].
  intros k Hk. rewrite Ht, elem_of_delTrackLocals. intros [Hin _].
  by apply (Htl k).
Qed.

Lemma Close_all_closes (ps : list (string * nat)) : ∀ w q,
  (closedAt q w ∨ q ∈ ps.*2) →
  closedAt q (foldl (λ w kp, Close_at kp.2 w) w ps).
Proof.
  induction ps as [|[k p] ps IH]; intros w q Hq; cbn.
  - destruct Hq as [?|Hin]; [done | by apply elem_of_nil in Hin].
  - apply IH. destruct Hq as [Hq|Hin].
    + left. by apply Close_at_keeps_closed.
    + cbn in Hin. apply elem_of_cons in Hin as [->|Hin]; [|by right].
      left. apply Close_at_closes.
Qed.

(** [Close] a second time finds nothing to do: the connection and the
    world, the trace included, stay as the first [Close] left them. *)
Theorem diskConn_Close_idempotent p w c :
  diskConn_Close p (diskConn_Close p w c).1 (diskConn_Close p w c).2
  = diskConn_Close p w c.
Proof.
  pose proof (diskConn_Close_world p w c) as (_ & _ & Hc & Ht).
  pose proof (noWriters_Close p w c) as Hn.
  pose proof (diskConn_Close_conn p w c) as Hconn.
  destruct (diskConn_Close p w c) as [w1 c1]. cbn in *.
  assert (Hcw : ∀ ts w0,
    Forall (λ t, tr_writer t = None) ts → closeWriters w0 ts = (w0, ts)).
  { induction ts as [|t ts IH]; intros w0 Hts; [done|].
    apply Forall_cons in Hts as [Ht0 Hts]. cbn [closeWriters].
    by rewrite Ht0, IH. }
  unfold diskConn_Close. rewrite Hcw by done.
  assert (Hlen : length (dc_tracks c1) = length (dc_tracks c)).
  { rewrite Hconn. cbn. by rewrite length_fmap. }
  f_equal.
  - destruct w1 as [fs1 now1 cl1 tl1 heap1 trace1]. cbn in *.
    unfold set_track_locals, set_conn_locals. cbn. f_equal.
    + subst cl1. set_solver.
    + apply set_eq. intros [q k]. rewrite elem_of_delTrackLocals, Hlen.
      subst tl1. rewrite elem_of_delTrackLocals. tauto.
  - by destruct c1.
Qed.

Lemma Client_Close_held client w id p :
  cl_down client !! id = Some p → closedAt p (Client_Close client w).2.
Proof.
  intros Hp. unfold Client_Close. cbn. apply Close_all_closes. right.
  apply list_elem_of_fmap. exists (id, p). split; [done|].
  by apply elem_of_map_to_list.
Qed.

(** [Client.Close] returns no error, empties the map and marks the client
    closed; every connection the client held is closed: it has no writer
    and neither it nor its tracks are registered any more.  Afterwards
    [PushConn] creates nothing: for the group of the client it fails with
    "disk client is closed", for another group it returns [nil]; the client
    and the world stay as they are. *)
Theorem Client_Close_closes Directory client w :
  (Client_Close client w).1.1 = None
  ∧ cl_down (Client_Close client w).1.2 = ∅
  ∧ cl_closed (Client_Close client w).1.2 = true
  ∧ (∀ id p, cl_down client !! id = Some p →
       closedAt p (Client_Close client w).2)
  ∧ (∀ w' g id up tracks label,
       Client_PushConn Directory (Client_Close client w).1.2 w' g id up
         tracks label
       = (if (group_key (cl_group client) =? group_key g)%nat
          then Some ErrClientClosed else None,
          (Client_Close client w).1.2, w')).
Proof.
  split; [done|]. split; [done|]. split; [done|]. split.
  - intros id p. apply Client_Close_held.
  - intros w' g id up tracks label. unfold Client_PushConn, Client_Close.
    cbn. by destruct (group_key (cl_group client) =? group_key g)%nat.
Qed.

(** [Kick] is [Close] followed by the removal of the client from its
    group: the same connections are closed, and the last event is the
    removal. *)
Theorem Client_Kick_closes client w :
  (Client_Kick client w).1.1 = None
  ∧ cl_closed (Client_Kick client w).1.2 = true
  ∧ cl_down (Client_Kick client w).1.2 = ∅
  ∧ trace (Client_Kick client w).2
    = trace (Client_Close client w).2 ++ [EvDelClient (cl_id client)]
  ∧ (∀ id p, cl_down client !! id = Some p →
       closedAt p (Client_Kick client w).2).
Proof.
  split; [done|]. split; [done|]. split; [done|]. split; [done|].
  intros id p Hp. apply (Client_Close_held client w id p Hp).
Qed.

End Closing.

(** * New files *)

Section NewFiles.
Context `{Lib}.

Lemma os_OpenFile_excl_new w name :
  trace (os_OpenFile_excl w name).2 = trace w
  ∧ match (os_OpenFile_excl w name).1 with
    | inr file =>
        file = name ∧ (file ∉ fs w)
        ∧ fs (os_OpenFile_excl w name).2 = {[file]} ∪ fs w
    | inl _ => (os_OpenFile_excl w name).2 = w
    end.
Proof.
  unfold os_OpenFile_excl. destruct (os_open_fault name); [done|].
  case_bool_decide; cbn; [done|]. by split.
Qed.

Lemma openDiskFile_loop_new n : ∀ counter directory filename w,
  trace (openDiskFile_loop n counter directory filename w).2 = trace w
  ∧ match (openDiskFile_loop n counter directory filename w).1 with
    | inr file =>
        (file ∉ fs w)
        ∧ fs (openDiskFile_loop n counter directory filename w).2
          = {[file]} ∪ fs w
        ∧ ∃ k, (counter ≤ k < counter + n)%nat
               ∧ file = candidatePath directory filename k
    | inl _ => (openDiskFile_loop n counter directory filename w).2 = w
    end.
Proof.
  induction n as [|n IH]; intros counter directory filename w; [done|].
  cbn [openDiskFile_loop]. fold (candidatePath directory filename counter).
  pose proof (os_OpenFile_excl_new w (candidatePath directory filename counter))
    as [Ht Hr].
  destruct (os_OpenFile_excl w _) as [[e|file] w1]; cbn in Ht, Hr.
  - subst w1. destruct (os_IsExist e); [|done].
    destruct (IH (S counter) directory filename w) as [Ht' Hr'].
    split; [done|].
    destruct (openDiskFile_loop n (S counter) directory filename w).1;
      [done|].
    destruct Hr' as (? & ? & k & ? & ?). split; [done|]. split; [done|].
    exists k. split; [lia | done].
  - cbn. split; [done|]. destruct Hr as (-> & ? & ?).
    split; [done|]. split; [done|]. exists counter. split; [lia | done].
Qed.

(** [openDiskFile] never opens a file that exists: the file it returns is
    one of the 100 candidates, did not exist before the call and is the
    only name the call adds to the disk; a call that fails leaves the world
    as it was. *)
Theorem openDiskFile_creates_new w directory label :
  trace (openDiskFile w directory label).2 = trace w
  ∧ match (openDiskFile w directory label).1 with
    | inr file =>
        (file ∉ fs w)
        ∧ fs (openDiskFile w directory label).2 = {[file]} ∪ fs w
        ∧ ∃ k, (k < 100)%nat
               ∧ file = candidatePath directory (diskFileName w label) k
    | inl _ => (openDiskFile w directory label).2 = w
    end.
Proof.
  unfold openDiskFile.
  destruct (openDiskFile_loop_new 100 0 directory (diskFileName w label) w)
    as [Ht Hr].
  split; [done|].
  destruct (openDiskFile_loop 100 0 directory (diskFileName w label) w).1;
    [done|].
  destruct Hr as (? & ? & k & ? & ?). split; [done|]. split; [done|].
  exists k. split; [lia | done].
Qed.

Lemma closeWriters_trace_exact ts : ∀ w,
  trace (closeWriters w ts).1
  = trace w ++ (EvWriterClose <$> omap tr_writer ts).
Proof.
  induction ts as [|t ts IH]; intros w; cbn [closeWriters omap list_omap].
  - cbn. by rewrite app_nil_r.
  - destruct (tr_writer t) as [bw|].
    + specialize (IH (emit (EvWriterClose bw) w)).
      destruct (closeWriters _ ts). cbn in *. rewrite IH.
      by rewrite <- app_assoc.
    + specialize (IH w). by destruct (closeWriters _ ts).
Qed.

Lemma reopen_detail w c :
  trace (reopen w c).1.2
  = trace w ++ (EvWriterClose <$> omap tr_writer (dc_tracks c))
  ∧ match (reopen w c).1.1 with
    | None =>
        ∃ file, (reopen w c).2 = reopened c (Some file)
                ∧ (file ∉ fs w) ∧ fs (reopen w c).1.2 = {[file]} ∪ fs w
    | Some _ => (reopen w c).2 = reopened c None
    end.
Proof.
  unfold reopen.
  pose proof (closeWriters_trace_exact (dc_tracks c) w) as Ht.
  pose proof (closeWriters_tracks (dc_tracks c) w) as Hts.
  pose proof (closeWriters_world (dc_tracks c) w) as (Hfs & _).
  destruct (closeWriters w (dc_tracks c)) as [w1 ts]. cbn in Ht, Hts, Hfs.
  subst ts. cbn [dc_directory dc_label set_file set_tracks].
  pose proof (openDiskFile_loop_new 100 0 (dc_directory c)
                (diskFileName w1 (dc_label c)) w1) as [Ht2 Hr].
  change (openDiskFile_loop 100 0 (dc_directory c)
            (diskFileName w1 (dc_label c)) w1)
    with (openDiskFile w1 (dc_directory c) (dc_label c)) in Ht2, Hr.
  destruct (openDiskFile w1 (dc_directory c) (dc_label c)) as [[e|file] w2];
    cbn in Ht2, Hr |- *.
  - split; [congruence | done].
  - split; [congruence|]. destruct Hr as (Hnew & Hfs2 & _).
    exists file. rewrite <- Hfs. done.
Qed.

(** Initialisation that is not a no-op and succeeds logs the closing of
    every writer the tracks had, in track order, and nothing else; the file
    the connection holds afterwards did not exist before the call and is
    the only name the call adds to the disk, so it is a file other than any
    earlier one that is still on disk; the connection ends initialised at
    the new size. *)
Theorem diskConn_initWriter_fresh_file w c width height :
  (diskConn_initWriter w c width height).1.1 = None →
  ¬ (is_Some (dc_file c) ∧ width = dc_width c ∧ height = dc_height c) →
  let w' := (diskConn_initWriter w c width height).1.2 in
  let c' := (diskConn_initWriter w c width height).2 in
  trace w' = trace w ++ (EvWriterClose <$> omap tr_writer (dc_tracks c))
  ∧ dc_width c' = width ∧ dc_height c' = height ∧ initialized c'
  ∧ ∃ file,
      dc_file c' = Some file ∧ (file ∉ fs w) ∧ fs w' = {[file]} ∪ fs w.
Proof.
  intros Hok Hnew w' c'. subst w' c'. unfold diskConn_initWriter in *.
  destruct (bool_decide (is_Some (dc_file c)) && (width =? dc_width c)
            && (height =? dc_height c)) eqn:Hsame.
  { exfalso. apply Hnew.
    apply andb_prop in Hsame as [Hsame Hh]. apply andb_prop in Hsame as [Hf Hw].
    apply bool_decide_eq_true in Hf. apply Z.eqb_eq in Hw, Hh. done. }
  destruct (trackEntries 0 (dc_tracks c) width height) as [e|entries] eqn:He;
    [done|].
  pose proof (reopen_detail w c) as [Htr Hre].
  destruct (reopen w c) as [[[e|] w1] c1]; [done|]. cbn in Htr, Hre.
  destruct Hre as (file & -> & Hfresh & Hfs).
  cbn [dc_file reopened set_file] in *.
  destruct (webm_NewSimpleBlockWriter file entries) as [e|writers] eqn:Hm;
    [cbn in Hok; discriminate Hok|].
  cbn [dc_tracks reopened set_file set_tracks] in Hok |- *.
  destruct (length writers =? length (set_writer None <$> dc_tracks c))%nat
    eqn:Hlen; [|cbn in Hok; discriminate Hok].
  apply Nat.eqb_eq in Hlen. cbn -[assignWriters trackEntries] in *.
  split; [done|]. split; [done|]. split; [done|]. split; [|by exists file].
  exists file, entries, writers. cbn.
  split; [done|]. split; [|split; [done|]].
  - rewrite <- He. apply trackEntries_remotes.
    rewrite assignWriters_fmap; [by apply unset_writers_fmap | done | done].
  - by apply assignWriters_writers.
Qed.

End NewFiles.

Lemma diskConn_initWriter_fresh_file_witness :
  ∃ file,
    dc_file (diskConn_initWriter emptyWorld audioConn 0 0).2 = Some file
    ∧ (file ∉ fs emptyWorld)
    ∧ fs (diskConn_initWriter emptyWorld audioConn 0 0).1.2
      = {[file]} ∪ fs emptyWorld.
Proof.
  pose proof (diskConn_initWriter_fresh_file emptyWorld audioConn 0 0)
    as Hnew.
  destruct Hnew as (_ & _ & _ & _ & Hfile).
  - vm_compute. reflexivity.
  - intros [[file Hf] _]. discriminate Hf.
  - exact Hfile.
Defined.

(** * Waiting for a key frame, and asking for one *)

Section Waiting.
Context `{Lib}.

(** On a connection with a video track that has no writer yet, a round
    does nothing but pop the sample: a sample of a track that is not VP8
    is dropped and the call returns [nil]; an empty VP8 sample is skipped;
    a VP8 sample that is not a key frame ends the call with "keyframe
    needed"; a key frame too short for its size to be read is dropped and
    the call returns [nil], but its timestamp is remembered as that of the
    last key frame. *)
Theorem waiting_for_keyframe w c i t kf s :
  dc_hasVideo c = true → noWriters c → dc_tracks c !! i = Some t →
  let w0 := emit (EvPop (tr_remote t) s) w in
  (isVideo (tr_remote t) = false →
   WriteRTP_sample w c i kf s = (Return None, w0, c))
  ∧ (isVideo (tr_remote t) = true →
     (Data s = [] → WriteRTP_sample w c i kf s = (Continue kf, w0, c))
     ∧ (Data s ≠ [] → vp8Keyframe (Data s) = false →
        WriteRTP_sample w c i kf s
        = (Return (Some ErrKeyframeNeeded), w0, c))
     ∧ (Data s ≠ [] → vp8Keyframe (Data s) = true →
        (length (Data s) < 10)%nat →
        WriteRTP_sample w c i kf s
        = (Return None, w0,
           alterTrack (set_lastKf (wrap32 (PacketTimestamp s))) i c))).
Proof.
  intros Hv Hn Ht w0.
  assert (Hw : tr_writer t = None) by (by eapply Forall_lookup_1 in Hn).
  unfold WriteRTP_sample, WriteRTP_switch, WriteRTP_write, isVideo.
  rewrite Ht. fold w0. split.
  - intros ->. rewrite Hw, Hv. cbn [negb]. by rewrite Ht, Hw.
  - intros Hvid. rewrite Hvid. split; [|split].
    + by intros ->.
    + intros Hne ->. destruct (Data s) as [|b d]; [done|]. cbn [length].
      replace (S (length d) <? 1)%nat with false by done.
      by rewrite Hw, Ht, Hw.
    + intros Hne Hk Hlen. rewrite Hk.
      destruct (Data s) as [|b d] eqn:Hd; [done|].
      replace (length (b :: d) <? 1)%nat with false by done.
      unfold diskTrack_initWriter. rewrite Hvid.
      destruct (Nat.ltb_spec (length (b :: d)) 10) as [_|?]; [|lia].
      unfold alterTrack. cbn [dc_tracks set_tracks].
      rewrite list_lookup_alter_eq, Ht. cbn. by rewrite Hw.
Qed.

Lemma WriteRTP_switch_sticky w c i t s ts keyframe kf' w' c' :
  WriteRTP_switch w c i t true s ts = (Go keyframe kf', w', c') → kf' = true.
Proof.
  unfold WriteRTP_switch. intros Hsw.
  destruct (isMime (track_Codec (tr_remote t)) "video/vp8").
  - destruct (length (Data s) <? 1)%nat; [done|].
    destruct (vp8Keyframe (Data s)).
    + destruct (diskTrack_initWriter w c t (Data s)) as [[[e|] w1] c1];
        [destruct (warn w1 c1 _)|]; by simplify_eq.
    + repeat case_match; by simplify_eq.
  - destruct (tr_writer t); [by simplify_eq|].
    destruct (negb (dc_hasVideo c)); [|by simplify_eq].
    destruct (diskConn_initWriter w c 0 0) as [[[e|] w1] c1];
      [destruct (warn w1 c1 _)|]; by simplify_eq.
Qed.

Lemma WriteRTP_sample_sticky w c i s kf' w' c' :
  WriteRTP_sample w c i true s = (Continue kf', w', c') → kf' = true.
Proof.
  unfold WriteRTP_sample. intros Hs.
  destruct (dc_tracks c !! i) as [t|]; [|done].
  destruct (WriteRTP_switch _ c i t true s _) as [[sw w1] c1] eqn:Hsw.
  destruct sw as [|e|keyframe kf1]; [by simplify_eq | done |].
  apply WriteRTP_switch_sticky in Hsw as ->.
  unfold WriteRTP_write in Hs. repeat case_match; by simplify_eq.
Qed.

Lemma hasWriter_view i c c' : sameView c c' → hasWriter i c → hasWriter i c'.
Proof.
  intros (_ & _ & _ & _ & _ & Hw) (t & bw & Ht & Hbw).
  assert (Hl : (tr_writer <$> dc_tracks c') !! i = Some (Some bw)).
  { rewrite Hw, list_lookup_fmap, Ht. cbn. by rewrite Hbw. }
  rewrite list_lookup_fmap in Hl.
  destruct (dc_tracks c' !! i) as [t'|] eqn:Ht'; [|done].
  exists t', bw. split; [done|]. cbn in Hl. by simplify_eq.
Qed.

Lemma initWriterOutcome_hasWriter i c width height c' :
  initWriterOutcome c width height None c' → hasWriter i c → hasWriter i c'.
Proof.
  intros Hout (t & bw & Ht & Hbw).
  inversion Hout as [| | |file entries writers He Hm Hl]; subst.
  - by exists t, bw.
  - assert (Hi : (i < length writers)%nat).
    { rewrite Hl. by eapply lookup_lt_Some. }
    apply lookup_lt_is_Some_2 in Hi as [bw' Hbw'].
    exists (set_writer (Some bw') (set_writer None t)), bw'. split; [|done].
    cbn. unfold assignWriters. apply lookup_zip_with_Some.
    exists (set_writer None t), bw'. split; [done|]. split; [|done].
    by rewrite list_lookup_fmap, Ht.
Qed.

Lemma WriteRTP_switch_hasWriter w c i t kf s ts keyframe kf' w' c' :
  WriteRTP_switch w c i t kf s ts = (Go keyframe kf', w', c') →
  hasWriter i c → hasWriter i c'.
Proof.
  unfold WriteRTP_switch. intros Hsw Hi.
  destruct (isMime (track_Codec (tr_remote t)) "video/vp8") eqn:Hvp8.
  - destruct (length (Data s) <? 1)%nat; [done|].
    destruct (vp8Keyframe (Data s)) eqn:Hkf.
    + unfold diskTrack_initWriter in Hsw. rewrite Hvp8, Hkf in Hsw.
      cbn [negb] in Hsw.
      assert (Hlast : ∀ c0, hasWriter i c0 →
                hasWriter i (alterTrack (set_lastKf ts) i c0)).
      { intros c0. apply hasWriter_view, sameView_alterTrack; by intros []. }
      destruct (length (Data s) <? 10)%nat; [simplify_eq; by apply Hlast|].
      destruct (diskConn_initWriter_spec w c (vp8Width (Data s))
                  (vp8Height (Data s))) as (_ & _ & _ & Hout).
      destruct (diskConn_initWriter w c _ _) as [[[e|] w1] c1];
        [destruct (warn w1 c1 _); by simplify_eq|].
      simplify_eq. apply Hlast. by eapply initWriterOutcome_hasWriter.
    + repeat case_match; by simplify_eq.
  - destruct (tr_writer t); [by simplify_eq|].
    destruct (negb (dc_hasVideo c)); [|by simplify_eq].
    destruct (diskConn_initWriter_spec w c 0 0) as (_ & _ & _ & Hout).
    destruct (diskConn_initWriter w c 0 0) as [[[e|] w1] c1];
      [destruct (warn w1 c1 _); by simplify_eq|].
    simplify_eq. by eapply initWriterOutcome_hasWriter.
Qed.

(** The switch skips only an empty VP8 sample, and changes nothing. *)
Lemma WriteRTP_switch_skip w c i t kf s ts w' c' :
  WriteRTP_switch w c i t kf s ts = (Skip, w', c') → w' = w ∧ c' = c.
Proof.
  unfold WriteRTP_switch. intros Hsw.
  destruct (isMime (track_Codec (tr_remote t)) "video/vp8").
  - destruct (length (Data s) <? 1)%nat; [by simplify_eq|].
    destruct (vp8Keyframe (Data s)).
    + destruct (diskTrack_initWriter w c t (Data s)) as [[[e|] w1] c1];
        [destruct (warn w1 c1 _)|]; by simplify_eq.
    + repeat case_match; by simplify_eq.
  - destruct (tr_writer t); [by simplify_eq|].
    destruct (negb (dc_hasVideo c)); [|by simplify_eq].
    destruct (diskConn_initWriter w c 0 0) as [[[e|] w1] c1];
      [destruct (warn w1 c1 _)|]; by simplify_eq.
Qed.

(** A round on a track that has a writer goes on with the writer still
    there, or ends with an error or the panic: it never returns [nil]. *)
Lemma WriteRTP_sample_hasWriter w c i kf s r w' c' :
  hasWriter i c → WriteRTP_sample w c i kf s = (r, w', c') →
  match r with
  | Continue _ => hasWriter i c'
  | Return None => False
  | _ => True
  end.
Proof.
  intros Hi. unfold WriteRTP_sample. intros Hs.
  destruct Hi as (t & bw & Ht & Hbw). rewrite Ht in Hs.
  assert (Hi : hasWriter i c) by (by exists t, bw).
  destruct (WriteRTP_switch _ c i t kf s _) as [[sw w1] c1] eqn:Hsw.
  destruct sw as [|e|keyframe kf1].
  - apply WriteRTP_switch_skip in Hsw as [_ ->]. by simplify_eq.
  - by simplify_eq.
  - pose proof (WriteRTP_switch_hasWriter _ _ _ _ _ _ _ _ _ _ _ Hsw Hi)
      as (t1 & bw1 & Ht1 & Hbw1).
    pose proof Hs as Hs'. apply WriteRTP_write_spec in Hs' as [Hview _].
    unfold WriteRTP_write in Hs. rewrite Ht1, Hbw1 in Hs.
    repeat case_match; simplify_eq; try done.
    all: eapply hasWriter_view; [exact Hview | by exists t1, bw1].
Qed.

(** Once a round has asked for a key frame (which it does only on a track
    that has a writer), the call cannot return [nil]: it ends with an error,
    "keyframe needed" when the queue runs out, or with the panic. *)
Theorem keyframe_request_sticks i q : ∀ w c r w' c' q',
  hasWriter i c →
  WriteRTP_loop q w c i true = (r, w', c', q') →
  (∃ e, r = Return (Some e)) ∨ r = Panic.
Proof.
  induction q as [|s q IH]; intros w c r w' c' q' Hi Hl.
  - cbn in Hl. simplify_eq. left. by eexists.
  - cbn [WriteRTP_loop] in Hl.
    destruct (WriteRTP_sample w c i true s) as [[r1 w1] c1] eqn:Hs.
    pose proof (WriteRTP_sample_hasWriter _ _ _ _ _ _ _ _ Hi Hs) as Hr.
    destruct r1 as [kf1|[e|]|].
    + apply WriteRTP_sample_sticky in Hs as ->. by eapply IH.
    + simplify_eq. left. by eexists.
    + done.
    + simplify_eq. by right.
Qed.

End Waiting.

Lemma waiting_for_keyframe_witness :
  WriteRTP_sample emptyWorld videoConn 1 false (deltaSample 0)
  = (Return (Some ErrKeyframeNeeded),
     emit (EvPop vp8Track (deltaSample 0)) emptyWorld, videoConn).
Proof.
  destruct (waiting_for_keyframe emptyWorld videoConn 1
              (newTrack vp8Track emptyBuilder) false (deltaSample 0))
    as [_ Hvideo]; [reflexivity | by repeat constructor | reflexivity |].
  destruct Hvideo as (_ & Hdelta & _); [reflexivity|].
  apply Hdelta; [done | reflexivity].
Defined.

Lemma keyframe_request_sticks_witness :
  (∃ e, (WriteRTP_loop [deltaSample 0] emptyWorld recording 0 true).1.1.1
        = Return (Some e))
  ∨ (WriteRTP_loop [deltaSample 0] emptyWorld recording 0 true).1.1.1
    = Panic.
Proof.
  apply (keyframe_request_sticks 0 [deltaSample 0] emptyWorld recording
           (WriteRTP_loop [deltaSample 0] emptyWorld recording 0 true).1.1.1
           (WriteRTP_loop [deltaSample 0] emptyWorld recording 0 true).1.1.2
           (WriteRTP_loop [deltaSample 0] emptyWorld recording 0 true).1.2
           (WriteRTP_loop [deltaSample 0] emptyWorld recording 0 true).2).
  - exists recordingTrack, recordingWriter. by split.
  - by destruct (WriteRTP_loop [deltaSample 0] emptyWorld recording 0 true)
      as [[[r w'] c'] q'].
Defined.

(** * The request for a key frame every ten seconds, and the clock *)

Section Refresh.
Context `{Lib}.

Lemma land_bit31 d :
  0 ≤ d < 2 ^ 32 → (Z.land d 0x80000000 =? 0) = (d <? 2 ^ 31).
Proof.
  intros Hd. change 0x80000000 with (2 ^ 31).
  assert (Hland : Z.land d (2 ^ 31) = if Z.testbit d 31 then 2 ^ 31 else 0).
  { apply Z.bits_inj'. intros k Hk. rewrite Z.land_spec.
    rewrite Z.pow2_bits_eqb by lia.
    destruct (Z.eqb_spec 31 k) as [<-|Hne].
    - rewrite andb_true_r. destruct (Z.testbit d 31) eqn:Hb.
      + by rewrite Z.pow2_bits_true.
      + by rewrite Z.bits_0.
    - rewrite andb_false_r. destruct (Z.testbit d 31).
      + rewrite Z.pow2_bits_false; [done | lia].
      + by rewrite Z.bits_0. }
  rewrite Hland. destruct (Z.testbit d 31) eqn:Hb.
  - apply Z.testbit_true in Hb; [|lia].
    destruct (Z.ltb_spec d (2 ^ 31)) as [Hlt|_]; [|done].
    rewrite Z.div_small in Hb by lia. done.
  - apply Z.testbit_false in Hb; [|lia].
    destruct (Z.ltb_spec d (2 ^ 31)) as [_|Hge]; [done|].
    assert (d / 2 ^ 31 = 1) as Hq.
    { symmetry. apply Z.div_unique with (r := d - 2 ^ 31); lia. }
    rewrite Hq in Hb. done.
Qed.

(** On a VP8 track that has a writer, a sample that is not a key frame
    asks for a key frame exactly when its timestamp is more than 900000
    ticks (ten seconds of the 90 kHz clock) and less than [2^31] ticks
    past that of the last key frame, in [uint32] arithmetic; a request
    already made stays.  The sample goes on to be written as a delta
    frame, and the connection is unchanged. *)
Theorem keyframe_asked_after_ten_seconds w c i t bw kf s ts :
  isVideo (tr_remote t) = true → tr_writer t = Some bw →
  Data s ≠ [] → vp8Keyframe (Data s) = false →
  let delta := wrap32 (ts - tr_lastKf t) in
  WriteRTP_switch w c i t kf s ts
  = (Go false (kf || (900000 <? delta) && (delta <? 2 ^ 31)), w, c).
Proof.
  intros Hv Hbw Hne Hk delta. unfold WriteRTP_switch, isVideo in *.
  rewrite Hv, Hk, Hbw. destruct (Data s) as [|b d]; [done|].
  replace (length (b :: d) <? 1)%nat with false by done.
  fold delta. rewrite land_bit31 by apply wrap32_range.
  change (10 * 90000) with 900000.
  destruct (delta <? 2 ^ 31), (900000 <? delta), kf; done.
Qed.

(** A track whose clock has fewer than 1000 ticks a second cannot be
    written: on a track that is not VP8 and has a writer, the round ends
    in the panic of the division by zero, after the pop and without a
    write; the origin has been recorded by then. *)
Theorem slow_clock_panics w c i t bw kf s :
  dc_tracks c !! i = Some t → tr_writer t = Some bw →
  isVideo (tr_remote t) = false →
  0 ≤ ClockRate (track_Codec (tr_remote t)) < 1000 →
  let ts := wrap32 (PacketTimestamp s) in
  WriteRTP_sample w c i kf s
  = (Panic, emit (EvPop (tr_remote t) s) w,
     alterTrack
       (set_origin (if tr_origin t =? 0 then markOrigin ts else tr_origin t))
       i c).
Proof.
  intros Ht Hbw Hv Hrate ts.
  unfold WriteRTP_sample, WriteRTP_switch, WriteRTP_write, isVideo in *.
  rewrite Ht, Hv, Hbw, Ht, Hbw. fold ts.
  rewrite wrap32_small by lia. by rewrite Z.div_small by lia.
Qed.

End Refresh.

Lemma keyframe_asked_after_ten_seconds_witness :
  WriteRTP_switch emptyWorld videoConn 1 keyedTrack false
    (deltaSample 1000000) 1000000
  = (Go false true, emptyWorld, videoConn).
Proof.
  apply (keyframe_asked_after_ten_seconds emptyWorld videoConn 1 keyedTrack
           videoWriter false (deltaSample 1000000) 1000000);
    [reflexivity | reflexivity | done | reflexivity].
Defined.

Lemma slow_clock_panics_witness :
  (WriteRTP_sample emptyWorld slowConn 0 false (deltaSample 4800)).1.1
  = Panic.
Proof.
  pose proof (slow_clock_panics emptyWorld slowConn 0 slowWritten
                recordingWriter false (deltaSample 4800)) as Hp.
  cbv zeta in Hp. rewrite Hp; [reflexivity | reflexivity | reflexivity
                              | reflexivity | cbn; lia].
Defined.

(** * Track entries *)

Section Entries.
Context `{Lib}.

Lemma trackEntries_unsupported ts : ∀ i width height,
  (∃ entries, trackEntries i ts width height = inr entries)
  ↔ Forall (λ t, supportedTrack t = true) ts.
Proof.
  induction ts as [|t ts IH]; intros i width height.
  - split; [constructor | by eexists].
  - split; [|apply trackEntries_supported].
    intros (entries & He). cbn [trackEntries] in He.
    unfold supportedTrack. constructor.
    + destruct (isMime (track_Codec (tr_remote t)) "audio/opus"); [done|].
      by destruct (isMime (track_Codec (tr_remote t)) "video/vp8").
    + apply (IH (S i) width height).
      destruct (trackEntries (S i) ts width height) as [e|es]; [|by eexists].
      by repeat case_match.
Qed.

Lemma trackEntries_lookup ts : ∀ i width height entries k t e,
  trackEntries i ts width height = inr entries →
  ts !! k = Some t → entries !! k = Some e →
  TrackNumber e = Z.of_nat (i + k) + 1
  ∧ if isVideo (tr_remote t)
    then CodecID e = "V_VP8" ∧ TrackType e = 1
         ∧ Video e = Some (width, height) ∧ Audio e = None
    else CodecID e = "A_OPUS" ∧ TrackType e = 2
         ∧ Audio e = Some (ClockRate (track_Codec (tr_remote t)),
                           Channels (track_Codec (tr_remote t)))
         ∧ Video e = None.
Proof.
  induction ts as [|t0 ts IH]; intros i width height entries k t e He Hk Hek;
    [done|].
  cbn [trackEntries] in He.
  destruct (trackEntries (S i) ts width height) as [err|es] eqn:Hes.
  { by repeat case_match. }
  destruct k as [|k].
  - cbn in Hk. simplify_eq. unfold isVideo.
    destruct (isMime (track_Codec (tr_remote t)) "audio/opus") eqn:Ho.
    + simplify_eq. cbn in Hek. simplify_eq. cbn.
      assert (isMime (track_Codec (tr_remote t)) "video/vp8" = false) as ->.
      { unfold isMime in *. apply String.eqb_eq in Ho. by rewrite Ho. }
      split; [lia | done].
    + destruct (isMime (track_Codec (tr_remote t)) "video/vp8"); [|done].
      simplify_eq. cbn in Hek. simplify_eq. cbn. split; [lia | done].
  - cbn in Hk.
    assert (∃ e0, entries = e0 :: es) as (e0 & ->) by (repeat case_match; simplify_eq; by eexists).
    cbn in Hek.
    destruct (IH (S i) width height es k t e Hes Hk Hek) as [Hn Hrest].
    split; [lia | done].
Qed.

Lemma trackEntries_length ts : ∀ i width height entries,
  trackEntries i ts width height = inr entries → length entries = length ts.
Proof.
  induction ts as [|t ts IH]; intros i width height entries He.
  - cbn in He. by simplify_eq.
  - cbn [trackEntries] in He.
    destruct (trackEntries (S i) ts width height) as [err|es] eqn:Hes.
    { by repeat case_match. }
    apply IH in Hes. repeat case_match; simplify_eq; cbn; by rewrite Hes.
Qed.

(** The track entries [diskConn.initWriter] hands to the muxer.  With a
    track that is neither Opus nor VP8 a call that is not the no-op fails
    with "unknown track type" and touches nothing, neither the world nor
    the connection.  Otherwise there are entries: one per track, in track
    order and numbered from 1; the entry of a VP8 track carries the size,
    the entry of an Opus track the clock rate and the channels; and when
    the call succeeds the writers of the tracks are those the muxer
    returned for the new file and these entries. *)
Theorem diskConn_initWriter_entries w c width height :
  ¬ sameSize c width height →
  (¬ tracksSupported c →
   diskConn_initWriter w c width height = (Some ErrUnknownTrackType, w, c))
  ∧ (tracksSupported c →
     ∃ entries,
       trackEntries 0 (dc_tracks c) width height = inr entries
       ∧ length entries = length (dc_tracks c)
       ∧ (∀ k t e,
            dc_tracks c !! k = Some t → entries !! k = Some e →
            TrackNumber e = Z.of_nat k + 1
            ∧ if isVideo (tr_remote t)
              then CodecID e = "V_VP8" ∧ TrackType e = 1
                   ∧ Video e = Some (width, height) ∧ Audio e = None
              else CodecID e = "A_OPUS" ∧ TrackType e = 2
                   ∧ Audio e
                     = Some (ClockRate (track_Codec (tr_remote t)),
                             Channels (track_Codec (tr_remote t)))
                   ∧ Video e = None)
       ∧ ((diskConn_initWriter w c width height).1.1 = None →
          ∃ file writers,
            dc_file (diskConn_initWriter w c width height).2 = Some file
            ∧ webm_NewSimpleBlockWriter file entries = inr writers
            ∧ tr_writer <$> dc_tracks (diskConn_initWriter w c width height).2
              = Some <$> writers)).
Proof.
  intros Hns. split.
  - intros Hbad. unfold diskConn_initWriter.
    rewrite (sameSize_test_false _ _ _ Hns).
    destruct (trackEntries 0 (dc_tracks c) width height) as [e|entries]
      eqn:He.
    + by rewrite (trackEntries_error _ _ _ _ _ He).
    + destruct Hbad. apply (trackEntries_unsupported _ 0 width height).
      by exists entries.
  - intros Hs.
    destruct (trackEntries_supported (dc_tracks c) 0 width height Hs)
      as (entries & He).
    exists entries. split; [done|].
    split; [by eapply trackEntries_length|]. split.
    + intros k t e Hk Hek.
      by apply (trackEntries_lookup (dc_tracks c) 0 width height entries).
    + intros Hok.
      destruct (diskConn_initWriter_spec w c width height)
        as (evs & _ & _ & Hout).
      destruct (diskConn_initWriter w c width height) as [[r w'] c'].
      cbn in Hok, Hout |- *. subst r.
      inversion Hout as [Hf Hw Hh| | |file entries' writers He' Hm Hl];
        subst.
      * destruct Hns. done.
      * rewrite He in He'. injection He' as <-.
        exists file, writers. split; [done|]. split; [done|]. cbn.
        apply assignWriters_writers. by rewrite length_fmap.
Qed.

End Entries.

Lemma diskConn_initWriter_entries_witness :
  diskConn_initWriter emptyWorld mixedConn 0 0
  = (Some ErrUnknownTrackType, emptyWorld, mixedConn).
Proof.
  destruct (diskConn_initWriter_entries emptyWorld mixedConn 0 0)
    as [Hbad _].
  - intros [[file Hf] _]. discriminate Hf.
  - apply Hbad. intros Hs.
    apply Forall_cons in Hs as [_ Hs]. apply Forall_cons in Hs as [Hs _].
    vm_compute in Hs. discriminate Hs.
Defined.

(** * What [newDiskConn] builds *)

Section Built.
Context `{Lib}.

Ltac fields :=
  cbn [addTrack set_tracks set_hasVideo set_track_locals emit dc_client
       dc_directory dc_label dc_file dc_remote dc_tracks dc_hasVideo trace
       fs now conn_locals track_locals heap fst snd orb] in *.

Lemma newDiskConn_loop_success p remotes : ∀ w conn w1 c1,
  newDiskConn_loop p remotes w conn = (None, w1, c1) →
  dc_tracks c1
  = dc_tracks conn
    ++ (builtTrack <$> filter (λ r, supportedRemote r = true) remotes)
  ∧ dc_hasVideo c1 = dc_hasVideo conn || existsb isVideo remotes
  ∧ dc_client c1 = dc_client conn ∧ dc_directory c1 = dc_directory conn
  ∧ dc_label c1 = dc_label conn ∧ dc_file c1 = dc_file conn
  ∧ dc_remote c1 = dc_remote conn
  ∧ trace w1 = trace w ++ refusals (dc_client conn) remotes
  ∧ fs w1 = fs w ∧ now w1 = now w ∧ conn_locals w1 = conn_locals w
  ∧ ∀ q k, (q, k) ∈ track_locals w1
           ↔ (q, k) ∈ track_locals w
             ∨ (q = p ∧ (length (dc_tracks conn) ≤ k
                         < length (dc_tracks c1))%nat).
Proof.
  induction remotes as [|remote rest IH]; intros w conn w1 c1 Hl.
  - cbn in Hl. simplify_eq. unfold refusals. cbn.
    rewrite !app_nil_r, orb_false_r. do 11 (split; [done|]).
    intros q k. split; [by left|]. intros [?|[_ ?]]; [done | lia].
  - rewrite newDiskConn_loop_cons in Hl. unfold refusals, supportedRemote.
    rewrite !filter_cons. cbn [existsb]. unfold isVideo at 1.
    assert (Hadd : ∀ track conn0,
      dc_tracks conn0 = dc_tracks conn →
      (∀ q k, (q, k) ∈ track_locals w1
              ↔ (q, k) ∈ {[(p, length (dc_tracks conn0))]} ∪ track_locals w
                ∨ (q = p ∧ (length (dc_tracks conn0 ++ [track]) ≤ k
                            < length (dc_tracks c1))%nat)) →
      (length (dc_tracks conn0 ++ [track]) ≤ length (dc_tracks c1))%nat →
      ∀ q k, (q, k) ∈ track_locals w1
             ↔ (q, k) ∈ track_locals w
               ∨ (q = p ∧ (length (dc_tracks conn) ≤ k
                           < length (dc_tracks c1))%nat)).
    { intros track conn0 Hts Hloc Hlen q k.
      rewrite Hloc, elem_of_union, elem_of_singleton.
      rewrite length_app in *. cbn in *. rewrite Hts in *. split.
      - intros [[[= -> ->]|?]|[-> ?]]; [right | by left | right];
          (split; [done | lia]).
      - intros [?|[-> Hk]]; [left; by right|].
        destruct (decide (k = length (dc_tracks conn))) as [->|?];
          [left; by left|].
        right. split; [done | lia]. }
    destruct (isMime (track_Codec remote) "audio/opus") eqn:Ho.
    + assert (Hv : isMime (track_Codec remote) "video/vp8" = false).
      { unfold isMime in *. apply String.eqb_eq in Ho. by rewrite Ho. }
      rewrite Hv. cbn [orb]. rewrite !decide_True, decide_False by done.
      cbv zeta in Hl. apply IH in Hl
        as (Ht & Hhv & ? & ? & ? & ? & ? & Htr & ? & ? & ? & Hloc).
      fields. rewrite fmap_cons. unfold builtTrack at 1. rewrite Ho.
      split; [by rewrite Ht, <- app_assoc|]. do 10 (split; [done|]).
      eapply Hadd; [done | exact Hloc |].
      rewrite Ht, !length_app. lia.
    + destruct (isMime (track_Codec remote) "video/vp8") eqn:Hv.
      * cbn [orb]. rewrite !decide_True, decide_False by done.
        destruct (dc_hasVideo conn) eqn:Hhv0; [done|].
        cbv zeta in Hl. apply IH in Hl
          as (Ht & Hhv & ? & ? & ? & ? & ? & Htr & ? & ? & ? & Hloc).
        fields. rewrite fmap_cons. unfold builtTrack at 1. rewrite Ho.
        split; [by rewrite Ht, <- app_assoc|]. do 10 (split; [done|]).
        eapply Hadd; [done | exact Hloc |].
        rewrite Ht, !length_app. lia.
      * cbn [orb]. rewrite !decide_False, decide_True by done.
        apply IH in Hl
          as (Ht & Hhv & ? & ? & ? & ? & ? & Htr & ? & ? & ? & Hloc).
        fields.
        do 7 (split; [done|]).
        split; [by rewrite Htr, <- app_assoc|]. do 3 (split; [done|]).
        done.
Qed.

Lemma builtTrack_supported remotes :
  Forall (λ t, supportedTrack t = true)
    (builtTrack <$> filter (λ r, supportedRemote r = true) remotes).
Proof.
  apply Forall_fmap, Forall_forall. intros r Hr.
  apply list_elem_of_filter in Hr as [Hs _]. cbn.
  unfold supportedTrack, builtTrack, supportedRemote in *.
  destruct (isMime (track_Codec r) "audio/opus") eqn:Ho; cbn;
    by rewrite Ho.
Qed.

Lemma builtTrack_noWriters remotes :
  Forall (λ t, tr_writer t = None)
    (builtTrack <$> filter (λ r, supportedRemote r = true) remotes).
Proof.
  apply Forall_fmap, Forall_forall. intros r _. cbn. unfold builtTrack.
  by destruct (isMime (track_Codec r) "audio/opus").
Qed.

Lemma newDiskConn_world w client directory label up remotes p :
  (newDiskConn w client directory label up remotes).1 = inr p →
  p = fresh (dom (heap w)) ∧ up_AddLocal up = None
  ∧ conn_locals (newDiskConn w client directory label up remotes).2
    = {[p]} ∪ conn_locals w
  ∧ trace (newDiskConn w client directory label up remotes).2
    = trace w ++ refusals client remotes
  ∧ fs (newDiskConn w client directory label up remotes).2 = fs w
  ∧ (∀ q k, (q, k) ∈ track_locals
                       (newDiskConn w client directory label up remotes).2
            → (q, k) ∈ track_locals w ∨ q = p)
  ∧ ∃ c,
      heap (newDiskConn w client directory label up remotes).2
      = <[p := c]> (heap w)
      ∧ dc_tracks c
        = builtTrack <$> filter (λ r, supportedRemote r = true) remotes
      ∧ dc_hasVideo c = existsb isVideo remotes
      ∧ dc_file c = None ∧ dc_client c = client
      ∧ dc_directory c = directory ∧ dc_label c = label ∧ dc_remote c = up
      ∧ ∀ k, (k < length (dc_tracks c))%nat →
             (p, k) ∈ track_locals
                        (newDiskConn w client directory label up remotes).2.
Proof.
  unfold newDiskConn.
  set (conn0 := {| dc_client := client; dc_directory := directory;
                   dc_label := label; dc_hasVideo := false; dc_file := None;
                   dc_remote := up; dc_tracks := []; dc_width := 0;
                   dc_height := 0; dc_lastWarning := 0 |}).
  pose proof (newDiskConn_loop_grows (fresh (dom (heap w))) remotes w conn0)
    as (_ & _ & Hheap).
  destruct (newDiskConn_loop (fresh (dom (heap w))) remotes w conn0)
    as [[err w1] c1] eqn:Hloop.
  destruct err as [e|]; [done|].
  destruct (up_AddLocal up) as [e|]; [done|]. cbn. intros [= <-].
  apply newDiskConn_loop_success in Hloop
    as (Ht & Hhv & ? & ? & ? & ? & ? & Htr & ? & ? & Hcl & Hloc).
  cbn in *. split; [done|]. split; [done|]. split; [by rewrite Hcl|].
  split; [done|]. split; [done|]. split.
  - intros q k Hin. apply Hloc in Hin as [?|[-> _]]; [by left | by right].
  - exists c1. rewrite Hheap. do 8 (split; [done|]).
    intros k Hk. apply Hloc. right. split; [done | lia].
Qed.

(** A successful [newDiskConn] allocates a new object and registers it
    with the remote connection.  The object has one track per remote
    track that is Opus or VP8, in their order and each registered with its
    remote, no file and no writer; [hasVideo] says whether a track is VP8,
    and there is at most one; every other remote track has been refused
    with a notification, and nothing else is logged.  The objects that
    existed are untouched. *)
Theorem newDiskConn_builds w client directory label up remotes p :
  (newDiskConn w client directory label up remotes).1 = inr p →
  let w' := (newDiskConn w client directory label up remotes).2 in
  heap w !! p = None
  ∧ (videoRemotes remotes ≤ 1)%nat
  ∧ conn_locals w' = {[p]} ∪ conn_locals w
  ∧ trace w' = trace w ++ refusals client remotes
  ∧ (∀ q, q ≠ p → heap w' !! q = heap w !! q)
  ∧ ∃ c,
      heap w' !! p = Some c
      ∧ tr_remote <$> dc_tracks c
        = filter (λ r, supportedRemote r = true) remotes
      ∧ dc_hasVideo c = existsb isVideo remotes
      ∧ dc_file c = None ∧ noWriters c ∧ tracksSupported c
      ∧ dc_client c = client ∧ dc_directory c = directory
      ∧ dc_label c = label ∧ dc_remote c = up
      ∧ ∀ k, (k < length (dc_tracks c))%nat → (p, k) ∈ track_locals w'.
Proof.
  intros Hp w'. subst w'.
  pose proof (newDiskConn_world _ _ _ _ _ _ _ Hp)
    as (-> & _ & Hcl & Htr & _ & _ & c & Hheap & Ht & Hhv & Hf & Hclient
        & Hdir & Hlabel & Hup & Hloc).
  split; [apply not_elem_of_dom, is_fresh|].
  split.
  { destruct (decide (2 ≤ videoRemotes remotes)%nat) as [Hn|?]; [|lia].
    pose proof (newDiskConn_one_video_aux w client directory label up
                  remotes Hn) as Herr.
    rewrite Hp in Herr. done. }
  split; [done|]. split; [done|]. split.
  { intros q Hq. rewrite Hheap. by apply lookup_insert_ne. }
  exists c. split; [by rewrite Hheap, lookup_insert_eq|].
  split.
  { rewrite Ht, <- list_fmap_compose. rewrite <- (list_fmap_id (filter _ _)) at 2.
    apply list_fmap_ext. intros ? r _. cbn. unfold builtTrack.
    by destruct (isMime (track_Codec r) "audio/opus"). }
  split; [done|]. split; [done|]. split.
  { unfold noWriters. rewrite Ht. apply builtTrack_noWriters. }
  split.
  { unfold tracksSupported. rewrite Ht. apply builtTrack_supported. }
  by do 4 (split; [done|]).
Qed.

End Built.

Lemma newDiskConn_builds_witness :
  ∃ c,
    heap (newDiskConn emptyWorld room "rec/room" "" upstream
            [opusTrack; vp8Track]).2
      !! fresh (dom (heap emptyWorld)) = Some c
    ∧ dc_file c = None ∧ noWriters c ∧ tracksSupported c.
Proof.
  destruct (newDiskConn_builds emptyWorld room "rec/room" "" upstream
              [opusTrack; vp8Track] (fresh (dom (heap emptyWorld))))
    as (_ & _ & _ & _ & _ & c & Hc & _ & _ & Hfile & Hnw & Hsup & _);
    [reflexivity|].
  by exists c.
Defined.

(** * Replacing a connection ([Client.PushConn]) *)

Section Pushing.
Context `{Lib}.

Lemma newDiskConn_loop_locals p remotes : ∀ w conn,
  conn_locals (newDiskConn_loop p remotes w conn).1.2 = conn_locals w
  ∧ ∀ q k, (q, k) ∈ track_locals (newDiskConn_loop p remotes w conn).1.2 →
           (q, k) ∈ track_locals w ∨ q = p.
Proof.
  induction remotes as [|remote rest IH]; intros w conn.
  { split; [done|]. intros q k ?. by left. }
  rewrite newDiskConn_loop_cons.
  assert (Hadd : ∀ track conn0,
    conn_locals (newDiskConn_loop p rest (addTrack p track w conn0).1
                   (addTrack p track w conn0).2).1.2 = conn_locals w
    ∧ ∀ q k,
        (q, k) ∈ track_locals
                   (newDiskConn_loop p rest (addTrack p track w conn0).1
                      (addTrack p track w conn0).2).1.2 →
        (q, k) ∈ track_locals w ∨ q = p).
  { intros track conn0.
    destruct (IH (addTrack p track w conn0).1 (addTrack p track w conn0).2)
      as [Hc Hl].
    split; [by rewrite Hc|]. intros q k Hin.
    apply Hl in Hin as [Hin|?]; [|by right]. cbn in Hin.
    apply elem_of_union in Hin as [Hin|?]; [|by left].
    apply elem_of_singleton in Hin as [= -> _]. by right. }
  destruct (isMime (track_Codec remote) "audio/opus"); [by apply Hadd|].
  destruct (isMime (track_Codec remote) "video/vp8").
  - destruct (dc_hasVideo conn); [|by apply Hadd].
    split; [done|]. intros q k ?. by left.
  - match goal with
    | |- context [newDiskConn_loop p rest ?w0 conn] =>
        destruct (IH w0 conn) as [Hc Hl]
    end.
    done.
Qed.

(** Whether it succeeds or not, [newDiskConn] touches no connection that
    exists: one that is closed stays closed. *)
Lemma newDiskConn_keeps_closed w client directory label up remotes q :
  is_Some (heap w !! q) → closedAt q w →
  closedAt q (newDiskConn w client directory label up remotes).2.
Proof.
  intros Hq Hcl. unfold newDiskConn.
  set (conn0 := {| dc_client := client; dc_directory := directory;
                   dc_label := label; dc_hasVideo := false; dc_file := None;
                   dc_remote := up; dc_tracks := []; dc_width := 0;
                   dc_height := 0; dc_lastWarning := 0 |}).
  assert (Hne : q ≠ fresh (dom (heap w))).
  { intros ->. apply elem_of_dom in Hq. by apply is_fresh in Hq. }
  pose proof (newDiskConn_loop_grows (fresh (dom (heap w))) remotes w conn0)
    as (_ & _ & Hheap).
  pose proof (newDiskConn_loop_locals (fresh (dom (heap w))) remotes w conn0)
    as [Hc Hl].
  destruct (newDiskConn_loop (fresh (dom (heap w))) remotes w conn0)
    as [[err w1] c1].
  cbn in Hheap, Hc, Hl.
  assert (Hgen : ∀ w2,
    heap w2 = <[fresh (dom (heap w)) := c1]> (heap w1) →
    conn_locals w2 ⊆ {[fresh (dom (heap w))]} ∪ conn_locals w1 →
    track_locals w2 = track_locals w1 → closedAt q w2).
  { intros w2 Hh2 Hc2 Ht2 c. rewrite Hh2, lookup_insert_ne, Hheap by done.
    intros Hc0. destruct (Hcl c Hc0) as (Hn & Hnc & Hnt).
    split; [done|]. split.
    - intros Hin. apply Hc2 in Hin. rewrite Hc in Hin. set_solver.
    - intros k Hk Hin. rewrite Ht2 in Hin.
      apply Hl in Hin as [Hin|?]; [|done]. by apply (Hnt k). }
  destruct err as [e|]; [apply Hgen; cbn; [done | set_solver | done]|].
  destruct (up_AddLocal up) as [e|];
    apply Hgen; cbn; [done | set_solver | done | done | set_solver | done].
Qed.

Lemma Close_at_dom p q w :
  heap (Close_at p w) !! q = None ↔ heap w !! q = None.
Proof.
  unfold Close_at. destruct (heap w !! p) as [c|] eqn:Hp; [|done].
  pose proof (diskConn_Close_world p w c) as (_ & Hh & _ & _).
  destruct (diskConn_Close p w c) as [w1 c1]. cbn in *.
  destruct (decide (q = p)) as [->|Hne].
  - rewrite lookup_insert_eq, Hp. split; intros ?; done.
  - by rewrite lookup_insert_ne, Hh by done.
Qed.

Lemma newDiskConn_trace_grows w client directory label up remotes :
  ∃ evs,
    trace (newDiskConn w client directory label up remotes).2
    = trace w ++ evs.
Proof.
  unfold newDiskConn.
  set (conn0 := {| dc_client := client; dc_directory := directory;
                   dc_label := label; dc_hasVideo := false; dc_file := None;
                   dc_remote := up; dc_tracks := []; dc_width := 0;
                   dc_height := 0; dc_lastWarning := 0 |}).
  generalize (fresh (dom (heap w))). intros p.
  assert (Hgen : ∀ remotes w conn,
    ∃ evs, trace (newDiskConn_loop p remotes w conn).1.2 = trace w ++ evs).
  { clear. induction remotes as [|remote rest IH]; intros w conn.
    { exists []. cbn. by rewrite app_nil_r. }
    rewrite newDiskConn_loop_cons. cbv zeta.
    destruct (isMime (track_Codec remote) "audio/opus");
      [|destruct (isMime (track_Codec remote) "video/vp8");
        [destruct (dc_hasVideo conn);
         [exists []; cbn; by rewrite app_nil_r|]|]].
    all: match goal with
         | |- context [newDiskConn_loop _ _ ?w0 ?c0] =>
             destruct (IH w0 c0) as [evs Hevs]
         end.
    all: rewrite Hevs; cbn; rewrite <- ?app_assoc; by eexists. }
  destruct (Hgen remotes w conn0) as [evs Hevs].
  destruct (newDiskConn_loop p remotes w conn0) as [[err w1] c1].
  cbn in Hevs. exists evs.
  destruct err as [e|]; [done|]. by destruct (up_AddLocal up).
Qed.

(** [PushConn] by the group of an open client replaces the connection
    held under [id]: that connection is closed and forgotten whatever
    happens next, and the client stays open.  Without a new upstream
    connection that is all, and the call returns [nil].  With one, either a
    new object is allocated and held under the identifier of the upstream
    connection, the other entries staying as they are, or the call fails
    because the directory or the object could not be made: the error is
    returned, it is announced to the operators as the last event, and the
    map is left without the old entry. *)
Theorem Client_PushConn_replaces Directory client w g id up tracks label :
  group_key (cl_group client) = group_key g → cl_closed client = false →
  let r := Client_PushConn Directory client w g id up tracks label in
  let w1 :=
    match cl_down client !! id with
    | Some old => Close_at old w
    | None => w
    end in
  let directory := filepath_Join Directory (group_Name (cl_group client)) in
  cl_closed r.1.2 = false
  ∧ (∀ old, cl_down client !! id = Some old → is_Some (heap w !! old) →
       closedAt old r.2)
  ∧ match up with
    | None =>
        r.1.1 = None ∧ cl_down r.1.2 = delete id (cl_down client)
        ∧ r.2 = w1
    | Some u =>
        match r.1.1 with
        | None =>
            ∃ p, heap w !! p = None ∧ is_Some (heap r.2 !! p)
                 ∧ p ∈ conn_locals r.2
                 ∧ cl_down r.1.2
                   = <[up_Id u := p]> (delete id (cl_down client))
                 ∧ os_MkdirAll directory = None
                 ∧ (newDiskConn w1 (cl_group client) directory label u
                      tracks).1 = inr p
        | Some err =>
            cl_down r.1.2 = delete id (cl_down client)
            ∧ (∃ evs,
                 trace r.2
                 = trace w ++ evs
                   ++ [EvWallOps g
                         ("Write to disk: " +:+ error_Error err)])
            ∧ ((∃ msg, os_MkdirAll directory = Some msg
                       ∧ err = ErrExternal msg)
               ∨ (os_MkdirAll directory = None
                  ∧ (newDiskConn w1 (cl_group client) directory label u
                       tracks).1 = inl err))
        end
    end.
Proof.
  intros Hg Hopen r w1 directory. subst r. unfold Client_PushConn.
  rewrite Hg, Nat.eqb_refl, Hopen. cbn [negb].
  set (st := match cl_down client !! id with
             | Some old =>
                 (set_down (delete id (cl_down client)) false client,
                  Close_at old w)
             | None => (client, w)
             end).
  assert (Hst : cl_down st.1 = delete id (cl_down client)
                ∧ cl_closed st.1 = false ∧ cl_group st.1 = cl_group client
                ∧ st.2 = w1
                ∧ (∀ old, cl_down client !! id = Some old →
                     is_Some (heap w !! old) →
                     closedAt old st.2 ∧ is_Some (heap st.2 !! old))
                ∧ (∀ q, heap st.2 !! q = None ↔ heap w !! q = None)
                ∧ ∃ evs, trace st.2 = trace w ++ evs).
  { subst st w1. destruct (cl_down client !! id) as [old|] eqn:Hold; cbn.
    - split; [done|]. split; [done|]. split; [done|]. split; [done|].
      split; [|split].
      + intros ? [= <-] Hin. split; [apply Close_at_closes|].
        destruct (heap (Close_at old w) !! old) eqn:Hc; [done|].
        apply Close_at_dom in Hc. rewrite Hc in Hin. by destruct Hin.
      + intros q. apply Close_at_dom.
      + unfold Close_at. destruct (heap w !! old) as [c|];
          [|exists []; by rewrite app_nil_r].
        pose proof (diskConn_Close_trace old w c) as (evs & Ht & _).
        destruct (diskConn_Close old w c) as [w2 c2]. cbn in *.
        by exists evs.
    - split; [by rewrite delete_id|]. split; [done|]. split; [done|].
      split; [done|]. split; [done|]. split; [done|].
      exists []. by rewrite app_nil_r. }
  destruct st as [client1 w1']. cbn in Hst.
  destruct Hst as (Hd & Hc & Hgr & -> & Hold & Hdom & evs1 & Ht1).
  rewrite Hgr. fold directory.
  destruct up as [u|].
  2: { cbn. split; [done|]. split; [|done].
       intros old Ho Hin. by apply (Hold old Ho Hin). }
  destruct (os_MkdirAll directory) as [msg|] eqn:Hmk.
  { cbn. split; [done|]. split.
    - intros old Ho Hin c. cbn. by apply (Hold old Ho Hin).
    - split; [done|]. split; [|left; by exists msg].
      exists evs1. by rewrite Ht1, app_assoc. }
  pose proof (newDiskConn_trace_grows w1 (cl_group client) directory label
                u tracks) as [evs2 Ht2].
  pose proof (λ q, newDiskConn_keeps_closed w1 (cl_group client) directory
                     label u tracks q) as Hkeep.
  destruct (newDiskConn w1 (cl_group client) directory label u tracks)
    as [[err|p] w2] eqn:Hnew.
  - cbn in *. split; [done|]. split.
    + intros old Ho Hin c. cbn.
      destruct (Hold old Ho Hin) as [Hcl Hin1]. by apply (Hkeep old Hin1 Hcl).
    + split; [done|]. split; [|by right].
      exists (evs1 ++ evs2). by rewrite Ht2, Ht1, <- !app_assoc.
  - cbn in *. split; [done|]. split.
    + intros old Ho Hin. destruct (Hold old Ho Hin) as [Hcl Hin1].
      by apply (Hkeep old Hin1 Hcl).
    + assert (Hp : (newDiskConn w1 (cl_group client) directory label u
                      tracks).1 = inr p) by (by rewrite Hnew).
      apply newDiskConn_world in Hp
        as (-> & _ & Hcl & _ & _ & _ & c & Hheap & _).
      rewrite Hnew in Hcl, Hheap. cbn in Hcl, Hheap.
      exists (fresh (dom (heap w1))). split; [|split; [|split; [|split]]].
      * apply Hdom. apply not_elem_of_dom, is_fresh.
      * rewrite Hheap, lookup_insert_eq. by eexists.
      * rewrite Hcl. set_solver.
      * by rewrite Hd.
      * done.
Qed.

End Pushing.

Lemma Client_PushConn_replaces_witness :
  closedAt 0
    (Client_PushConn "rec" recorder recordingWorld room "up" (Some upstream)
       [opusTrack; vp8Track] "").2.
Proof.
  destruct (Client_PushConn_replaces "rec" recorder recordingWorld room "up"
              (Some upstream) [opusTrack; vp8Track] "")
    as (_ & Hold & _); [reflexivity | reflexivity |].
  apply Hold; [reflexivity|]. by exists recording.
Defined.

(** * Packets after [Close] *)

Section Closed.
Context `{Lib}.

(** A connection without a video track that has been recording and is then
    closed (its file still referenced, its size still 0 by 0, every writer
    gone) drops whatever arrives: [WriteRTP] returns [nil], pops at most
    one sample, writes nothing, creates no file, and leaves the connection
    in the same state but for the builder, so the same holds for the next
    packet. *)
Theorem closed_audio_drops w c i packet :
  dc_hasVideo c = false → is_Some (dc_file c) →
  dc_width c = 0 → dc_height c = 0 → noWriters c →
  Forall (λ t, isVideo (tr_remote t) = false) (dc_tracks c) →
  let r := diskTrack_WriteRTP w c i packet in
  r.1.1 = Return None
  ∧ (r.1.2 = w
     ∨ ∃ t s, dc_tracks c !! i = Some t
              ∧ r.1.2 = emit (EvPop (tr_remote t) s) w)
  ∧ sameView c r.2.
Proof.
  intros Hv Hf Hw Hh Hn Ha r. subst r. unfold diskTrack_WriteRTP.
  destruct (dc_tracks c !! i) as [t|] eqn:Ht;
    [|split; [done|]; split; [by left | apply sameView_refl]].
  destruct (tr_builder t) as [builder|];
    [|split; [done|]; split; [by left | apply sameView_refl]].
  destruct (clonePacket packet) as [pk|];
    [|split; [done|]; split; [by left | apply sameView_refl]].
  assert (Hwt : tr_writer t = None).
  { by apply (Forall_lookup_1 _ _ _ _ Hn Ht). }
  assert (Hvt : isMime (track_Codec (tr_remote t)) "video/vp8" = false).
  { by apply (Forall_lookup_1 _ _ _ _ Ha Ht). }
  destruct (Push builder pk) as [q rest]. cbn [fst snd].
  destruct q as [|s q].
  - cbn. split; [done|]. split; [by left|]. by apply sameView_alterTrack.
  - cbn [WriteRTP_loop].
    assert (Hs : WriteRTP_sample w c i false s
                 = (Return None, emit (EvPop (tr_remote t) s) w, c)).
    { unfold WriteRTP_sample, WriteRTP_switch, WriteRTP_write.
      rewrite Ht, Hvt, Hwt, Hv. cbn [negb]. unfold diskConn_initWriter.
      rewrite bool_decide_eq_true_2, Hw, Hh by done. cbn [andb Z.eqb].
      by rewrite Ht, Hwt. }
    rewrite Hs. cbn. split; [done|]. split; [right; by exists t, s|].
    by apply sameView_alterTrack.
Qed.

End Closed.

Lemma closed_audio_drops_witness :
  (diskTrack_WriteRTP emptyWorld (diskConn_Close 0 emptyWorld recording).2 0
     audioPacket).1.1 = Return None.
Proof.
  destruct (closed_audio_drops emptyWorld
              (diskConn_Close 0 emptyWorld recording).2 0 audioPacket)
    as (Hr & _).
  - reflexivity.
  - by exists recordingFile.
  - reflexivity.
  - reflexivity.
  - apply noWriters_Close.
  - by repeat constructor.
  - exact Hr.
Defined.
